(** * Scheduler simulator: the submit handler of the CPU scheduling form

    A shallow embedding of [MainForm] (the CPU scheduling page): the form
    schema, the submit handler [onSubmit] with its timeline-assembly pass,
    and the render guard of the results block.

    The page imports the six strategies ([@/lib/FirstComeFirstServe] and the
    others) and the summary components; their code is not in the repository
    files this development covers.  The handler is therefore embedded over an
    arbitrary strategy library [Lib], whose strategies may write to the
    records and to the array they are handed, or not return at all.  Module
    [SpecLib] gives the six strategies and module [Metrics] the metrics as
    the specification describes them. *)

From Stdlib Require Import ZArith String List Lia Bool.
From stdpp Require Import base option list strings.
Import ListNotations.

Local Open Scope string_scope.
Local Open Scope list_scope.

(** ** Data model *)

(** *** Numbers

    Times are JavaScript numbers (binary64).  The form collects whole time
    units; the model holds the integer-valued numbers as integers.
    [Math.max] of two numbers is one of them.  A sum is the exact sum rounded
    to the nearest number, ties to the even significand: exact up to 2^53 in
    magnitude, a multiple of the unit in the last place beyond.  The model
    covers sums below 2^1024 in magnitude; beyond, the program's sum is
    [Infinity]. *)
Definition round64 (n : Z) : Z :=
  let a := Z.abs n in
  if (a <=? 9007199254740992)%Z then n
  else
    let ulp := (2 ^ (Z.log2 a - 52))%Z in
    let q := (a / ulp)%Z in
    let r := (a mod ulp)%Z in
    let q' := if (2 * r <? ulp)%Z then q
              else if (ulp <? 2 * r)%Z then (q + 1)%Z
              else if Z.even q then q else (q + 1)%Z in
    (Z.sgn n * (q' * ulp))%Z.

(** [a + b] on numbers. *)
Definition number_add (a b : Z) : Z := round64 (a + b).

(** [Number.MAX_SAFE_INTEGER], 2^53 - 1. *)
Definition MAX_SAFE_INTEGER : Z := 9007199254740991%Z.

(** [Number.isSafeInteger], on an integer-valued number. *)
Definition safe_integer (n : Z) : Prop :=
  (- MAX_SAFE_INTEGER ≤ n ≤ MAX_SAFE_INTEGER)%Z.

Definition safe_integerb (n : Z) : bool :=
  ((- MAX_SAFE_INTEGER <=? n) && (n <=? MAX_SAFE_INTEGER))%Z.

(** [type Process]. *)
Record Process : Type := mkProcess {
  process_id : Z;
  arrival_time : Z;  (* will be overwritten to actual start time *)
  burst_time : Z;
  background : string;
  priority : option Z;
}.

(** Object spread with one overwritten field: [{ ...proc, arrival_time: start }]. *)
Definition with_arrival_time (proc : Process) (start : Z) : Process :=
  {| process_id := process_id proc;
     arrival_time := start;
     burst_time := burst_time proc;
     background := background proc;
     priority := priority proc |}.

(** The sum of the [burst_time] fields: total CPU time of a process list,
    total run amount of a decision sequence or timeline. *)
Definition total_burst (ps : list Process) : Z :=
  foldr (λ p acc, (burst_time p + acc)%Z) 0%Z ps.

(** *** The object store

    Process records are JavaScript objects: arrays hold references to them
    and two arrays may share a record.  The store is the list of all records
    allocated so far; a reference is an index into it.  Allocation appends,
    so a reference is never reused. *)
Abbreviation loc := nat (only parsing).
Abbreviation Heap := (list Process) (only parsing).

Definition alloc (h : Heap) (p : Process) : loc * Heap := (length h, h ++ [p]).

(** The values an array of references denotes in a store. *)
Definition deref_all (h : Heap) (refs : list loc) : list Process :=
  omap (λ r, h !! r) refs.

(** Every reference of the array is a live object of the store. *)
Definition live (h : Heap) (refs : list loc) : Prop :=
  Forall (λ r, r < length h) refs.

Definition liveb (h : Heap) (refs : list loc) : bool :=
  forallb (λ r, (r <? length h)%nat) refs.

(** *** Calls that leave the component *)
Inductive Event : Type :=
  | ToastError (msg : string)      (* toast.error(msg, { position: "top-center" }) *)
  | Invoke (strategy : string) (processes : list loc) (quantum : option Z)
                                   (* a call of one of the six imported strategies *)
  | FormErrors (msgs : list string)    (* schema issues, shown by <FormMessage /> *)
  | ScrollIntoView.        (* setTimeout(() => summaryRef.current?.scrollIntoView(..), 0) *)

(** The part of the component state the handler reads or writes:
    [processes] and [timeline] are the two [useState] cells. *)
Record World : Type := mkWorld {
  heap : Heap;
  processes : list loc;
  timeline : list loc;
  trace : list Event;
}.

(** *** The strategy library

    A strategy receives the process array (and round robin the quantum) and
    returns an array of records.  It runs against the store: it may return
    the records it was given, allocate new ones, or overwrite fields.  The
    array it receives is the caller's own, so it may also reorder or
    overwrite that array in place.  [Returned] is what a call leaves behind;
    a call that throws or does not terminate leaves [None]. *)
Record Returned : Type := mkReturned {
  returned : list loc;   (* the array the strategy returns *)
  handed : list loc;     (* the array it was handed, as the call leaves it *)
  store : Heap;          (* the store, as the call leaves it *)
}.

Abbreviation Strategy := (list loc → Heap → option Returned) (only parsing).

Record Lib : Type := mkLib {
  firstComeFirstServe : Strategy;
  shortestJobFirst : Strategy;
  roundRobin : list loc → Z → Heap → option Returned;
  shortestRemainingTimeFirst : Strategy;
  nonPreemptivePriority : Strategy;
  preemptivePriority : Strategy;
}.

(** ** The handler monad: state over [World]; [None] is a run that does not
    complete (a dangling reference, a strategy that does not return) *)
Definition M (A : Type) : Type := World → option (A * World).

#[local] Instance M_ret : MRet M := λ A a w, Some (a, w).
#[local] Instance M_bind : MBind M := λ A B k m w,
  match m w with
  | Some (a, w') => k a w'
  | None => None
  end.

Definition getProcesses : M (list loc) := λ w, Some (processes w, w).

Definition emit (e : Event) : M unit := λ w,
  Some (tt, {| heap := heap w; processes := processes w;
               timeline := timeline w; trace := trace w ++ [e] |}).

Definition toast_error (msg : string) : M unit := emit (ToastError msg).

Definition setTimeline (tl : list loc) : M unit := λ w,
  Some (tt, {| heap := heap w; processes := processes w;
               timeline := tl; trace := trace w |}).

(** Field access through a reference. *)
Definition read (r : loc) : M Process := λ w,
  match heap w !! r with
  | Some p => Some (p, w)
  | None => None
  end.

(** An object literal: a new record in the store. *)
Definition new (p : Process) : M loc := λ w,
  let '(l, h) := alloc (heap w) p in
  Some (l, {| heap := h; processes := processes w;
              timeline := timeline w; trace := trace w |}).

(** A call into the strategy library.  The array handed over is the
    [processes] state array itself: what the strategy leaves in it is what
    the state holds afterwards.  Nothing is caught: when the strategy does
    not return, neither does the handler. *)
Definition call (name : string) (ps : list loc) (q : option Z)
    (f : Heap → option Returned) : M (list loc) := λ w,
  match f (heap w) with
  | Some r =>
      Some (returned r, {| heap := store r; processes := handed r;
                           timeline := timeline w; trace := trace w ++ [Invoke name ps q] |})
  | None => None
  end.

(** [xs.forEach(body)], the closure's captured locals threaded as [s]. *)
Fixpoint forEach {S : Type} (xs : list loc) (body : loc → S → M S) (s : S) : M S :=
  match xs with
  | [] => mret s
  | x :: rest => s' ← body x s; forEach rest body s'
  end.

(** ** The form schema and the submit handler *)

(** What the form holds when it is submitted.  [in_quantum] is the quantum
    field after [z.coerce.number()]; [None] is [undefined]. *)
Record FormInput : Type := mkFormInput {
  in_algorithm : option string;
  in_quantum : option Z;
}.

(** [z.infer<typeof FormSchema>] *)
Record FormValues : Type := mkFormValues {
  algorithm : string;
  quantum : option Z;
}.

(** [FormSchema]: [algorithm] is a required string, [quantum] an optional
    number at most 100.  Returns the issues, or the parsed values. *)
Definition FormSchema (i : FormInput) : list string + FormValues :=
  let algorithm_issues :=
    match in_algorithm i with
    | None => ["Please select an algorithm to display."]
    | Some _ => []
    end in
  let quantum_issues :=
    match in_quantum i with
    | Some q => if (q <=? 100)%Z then [] else ["Quantum cannot be greater than 100."]
    | None => []
    end in
  match in_algorithm i, algorithm_issues ++ quantum_issues with
  | Some a, [] => inr {| algorithm := a; quantum := in_quantum i |}
  | _, issues => inl issues
  end.

(** The body of the first [raw.forEach] (preemptive priority). *)
Definition push_slice (slice : loc) (s : list loc * Z) : M (list loc * Z) :=
  let '(tl, currentTime) := s in
  sl ← read slice;
  mret (tl ++ [slice], number_add (arrival_time sl) (burst_time sl)).

(** The body of the second [raw.forEach] (every other algorithm). *)
Definition push_stamped (proc : loc) (s : list loc * Z) : M (list loc * Z) :=
  let '(tl, currentTime) := s in
  p ← read proc;
  let start := Z.max currentTime (arrival_time p) in
  l ← new (with_arrival_time p start);
  mret (tl ++ [l], number_add start (burst_time p)).

(** The [switch (values.algorithm)]; no [default] branch. *)
Definition run_strategy (lib : Lib) (values : FormValues) (processes : list loc)
    : M (list loc) :=
  let a := algorithm values in
  if a =? "fCFS" then call "fCFS" processes None (firstComeFirstServe lib processes)
  else if a =? "SJF" then call "SJF" processes None (shortestJobFirst lib processes)
  else if a =? "RR" then
    let q := default 0%Z (quantum values) in
    call "RR" processes (Some q) (roundRobin lib processes q)
  else if a =? "SRTF" then
    call "SRTF" processes None (shortestRemainingTimeFirst lib processes)
  else if a =? "NPPS" then
    call "NPPS" processes None (nonPreemptivePriority lib processes)
  else if a =? "PPS" then
    call "PPS" processes None (preemptivePriority lib processes)
  else mret [].

Definition onSubmit (lib : Lib) (values : FormValues) : M unit :=
  processes ← getProcesses;
  if (length processes =? 0)%nat then
    toast_error "No processes added!"
  else
    (* 1) raw sequence *)
    raw ← run_strategy lib values processes;
    (* 2) build real timeline *)
    let isPreemptive := algorithm values =? "PPS" in
    r ← (if isPreemptive
         then forEach raw push_slice ([], 0%Z)
         else forEach raw push_stamped ([], 0%Z));
    (* 3) set timeline & scroll *)
    _ ← setTimeline r.1;
    emit ScrollIntoView.

(** [form.handleSubmit(onSubmit)] with [zodResolver(FormSchema)]: the handler
    runs only on values the schema accepts. *)
Definition handleSubmit (lib : Lib) (i : FormInput) : M unit :=
  match FormSchema i with
  | inl issues => emit (FormErrors issues)
  | inr values => onSubmit lib values
  end.

(** [{timeline.length > 0 && ...}]: whether the results block is rendered. *)
Definition results_rendered (w : World) : bool := (0 <? length (timeline w))%nat.

(** ** Events and outcomes *)

Definition is_error (e : Event) : bool :=
  match e with
  | ToastError _ | FormErrors _ => true
  | _ => false
  end.

(** The six labels of the [switch]. *)
Definition case_labels : list string := ["fCFS"; "SJF"; "RR"; "SRTF"; "NPPS"; "PPS"].

Definition recognised (a : string) : bool := existsb (String.eqb a) case_labels.

(** A submission is rejected: one error is reported, no record is allocated
    or changed, and the timeline state keeps its value. *)
Definition rejects (submit : M unit) (w : World) : Prop :=
  ∃ (w' : World) (e : Event),
    submit w = Some (tt, w') ∧ trace w' = trace w ++ [e] ∧ is_error e = true
    ∧ heap w' = heap w ∧ timeline w' = timeline w.

(** ** The assembly pass as the specification words it

    "The Assembler walks the sequence maintaining [current_clock], and for
    each entry computes [start = max(current_clock, process.arrival_time)],
    emits an ExecutionSlice, then sets [current_clock = start + amount_run]." *)
Fixpoint stamp_from (current_clock : Z) (entries : list Process) : list Process :=
  match entries with
  | [] => []
  | e :: rest =>
      let start := Z.max current_clock (arrival_time e) in
      with_arrival_time e start :: stamp_from (start + burst_time e) rest
  end.

Fixpoint clock_from (current_clock : Z) (entries : list Process) : Z :=
  match entries with
  | [] => current_clock
  | e :: rest => clock_from (Z.max current_clock (arrival_time e) + burst_time e) rest
  end.

(** The clock of the first loop: the end of the slice pushed last. *)
Definition clock_of_last (current_clock : Z) (slices : list Process) : Z :=
  match last slices with
  | Some s => (arrival_time s + burst_time s)%Z
  | None => current_clock
  end.

(** The slices on display: the records the [timeline] state refers to. *)
Definition displayed (w : World) : list Process := deref_all (heap w) (timeline w).

(** ** The assembly pass as the program computes it

    The records the second [raw.forEach] allocates for the entries it walks,
    and the value it leaves in [currentTime]: the recurrence above, with the
    sum taken on numbers. *)
Fixpoint copies_from (currentTime : Z) (entries : list Process) : list Process :=
  match entries with
  | [] => []
  | proc :: rest =>
      let start := Z.max currentTime (arrival_time proc) in
      with_arrival_time proc start :: copies_from (number_add start (burst_time proc)) rest
  end.

Fixpoint time_from (currentTime : Z) (entries : list Process) : Z :=
  match entries with
  | [] => currentTime
  | proc :: rest =>
      time_from (number_add (Z.max currentTime (arrival_time proc)) (burst_time proc)) rest
  end.

(** The value the first [raw.forEach] leaves in [currentTime]. *)
Definition time_of_last (currentTime : Z) (slices : list Process) : Z :=
  match last slices with
  | Some s => number_add (arrival_time s) (burst_time s)
  | None => currentTime
  end.

(** A walk on which the program's arithmetic is the integers': every time
    the entries carry is a safe integer, and so is every value the clock
    takes. *)
Fixpoint exact_from (current_clock : Z) (entries : list Process) : Prop :=
  match entries with
  | [] => True
  | e :: rest =>
      let start := Z.max current_clock (arrival_time e) in
      safe_integer (arrival_time e) ∧ safe_integer (burst_time e)
      ∧ safe_integer (start + burst_time e)
      ∧ exact_from (start + burst_time e) rest
  end.

Fixpoint exact_fromb (current_clock : Z) (entries : list Process) : bool :=
  match entries with
  | [] => true
  | e :: rest =>
      let start := Z.max current_clock (arrival_time e) in
      safe_integerb (arrival_time e) && safe_integerb (burst_time e)
      && safe_integerb (start + burst_time e)
      && exact_fromb (start + burst_time e) rest
  end.

(** ** Shape of the timeline *)

(** Contiguous slices: each one starts where the clock stands, and the
    clock moves to its end. *)
Fixpoint contiguous_from (clock : Z) (tl : list Process) : Prop :=
  match tl with
  | [] => True
  | s :: rest =>
      arrival_time s = clock ∧ contiguous_from (arrival_time s + burst_time s) rest
  end.

(** Ordered slices: each one starts no earlier than the clock stands. *)
Fixpoint ordered_from (clock : Z) (tl : list Process) : Prop :=
  match tl with
  | [] => True
  | s :: rest =>
      (clock ≤ arrival_time s)%Z ∧ ordered_from (arrival_time s + burst_time s) rest
  end.

Fixpoint ordered_fromb (clock : Z) (tl : list Process) : bool :=
  match tl with
  | [] => true
  | s :: rest =>
      (clock <=? arrival_time s)%Z && ordered_fromb (arrival_time s + burst_time s) rest
  end.

Definition nonnegative_amounts (tl : list Process) : Prop :=
  Forall (λ s, (0 ≤ burst_time s)%Z) tl.

Definition nonnegative_amountsb (tl : list Process) : bool :=
  forallb (λ s, (0 <=? burst_time s)%Z) tl.

(** ** The strategy library, modelled from the specification *)

Module SpecLib.

Local Open Scope Z_scope.

(** Modelled from the spec: the tie-break shared by the strategies, which
    are missing from the sources.  Candidates are compared by the strategy's
    ranking key, then by [arrival_time], then by [id]. *)
Definition before {A : Type} (proc : A → Process) (rank : A → Z) (a b : A) : bool :=
  if rank a <? rank b then true
  else if rank b <? rank a then false
  else if arrival_time (proc a) <? arrival_time (proc b) then true
  else if arrival_time (proc b) <? arrival_time (proc a) then false
  else process_id (proc a) <? process_id (proc b).

(** Modelled from the spec: the candidate that wins the tie-break. *)
Fixpoint best {A : Type} (proc : A → Process) (rank : A → Z) (a : A) (rest : list A) : A :=
  match rest with
  | [] => a
  | b :: rest' => best proc rank (if before proc rank b a then b else a) rest'
  end.

(** Modelled from the spec: a candidate is ready, [arrival_time ≤ clock]. *)
Definition arrived {A : Type} (proc : A → Process) (clock : Z) (a : A) : bool :=
  arrival_time (proc a) <=? clock.

(** Modelled from the spec: the next arrival event, the earliest arrival
    among the candidates that is later than [clock]. *)
Fixpoint next_arrival {A : Type} (proc : A → Process) (clock : Z) (pool : list A) : option Z :=
  match pool with
  | [] => None
  | a :: rest =>
      let t := arrival_time (proc a) in
      match next_arrival proc clock rest with
      | Some u => Some (if (clock <? t) && (t <? u) then t else u)
      | None => if clock <? t then Some t else None
      end
  end.

(** Modelled from the spec: "If no process is ready, advance the clock to
    the next arrival (idle)." *)
Definition advance {A : Type} (proc : A → Process) (clock : Z) (pool : list A) : Z :=
  if existsb (arrived proc clock) pool then clock
  else default clock (next_arrival proc clock pool).

(** Modelled from the spec: the candidates "not yet scheduled", the chosen
    one taken out by its id. *)
Fixpoint remove_id {A : Type} (proc : A → Process) (id : Z) (pool : list A) : list A :=
  match pool with
  | [] => []
  | a :: rest => if process_id (proc a) =? id then rest else a :: remove_id proc id rest
  end.

(** Modelled from the spec: a decision-sequence entry, the process with the
    amount of time it ran in [burst_time]. *)
Definition with_burst_time (p : Process) (amount : Z) : Process :=
  {| process_id := process_id p; arrival_time := arrival_time p; burst_time := amount;
     background := background p; priority := priority p |}.

(** Modelled from the spec: first-come-first-served (4.2), missing from the
    sources.  "Order processes by arrival_time ascending, ties by id." *)
Fixpoint insert_by_arrival (p : Process) (sorted : list Process) : list Process :=
  match sorted with
  | [] => [p]
  | q :: rest =>
      if before id arrival_time q p then q :: insert_by_arrival p rest else p :: q :: rest
  end.

(** Modelled from the spec: "Decision sequence = that order, each running
    its full burst_time." *)
Definition fcfs (ps : list Process) : list Process := foldr insert_by_arrival [] ps.

(** Modelled from the spec: the loop of shortest-job-first (4.3) and of
    non-preemptive priority (4.6), missing from the sources.  Whenever the
    CPU is free the best-ranked ready process runs to completion. *)
Fixpoint run_to_completion (rank : Process → Z) (fuel : nat) (clock : Z)
    (pending : list Process) : list Process :=
  match fuel with
  | O => []
  | S fuel' =>
      let clock := advance id clock pending in
      match filter (λ p, arrived id clock p = true) pending with
      | [] => []
      | r :: ready =>
          let p := best id rank r ready in
          p :: run_to_completion rank fuel' (clock + burst_time p)
                 (remove_id id (process_id p) pending)
      end
  end.

(** Modelled from the spec: shortest-job-first (4.3), "pick the smallest
    burst_time (tie: arrival_time, then id)". *)
Definition sjf (ps : list Process) : list Process :=
  run_to_completion burst_time (length ps) 0 ps.

(** Modelled from the spec: the priority key, "lower = more urgent".  The
    rank of a process without a priority is left open by the spec (4.6
    requires one); it is read as 0. *)
Definition priority_rank (p : Process) : Z := default 0 (priority p).

(** Modelled from the spec: non-preemptive priority (4.6), "identical
    control structure to SJF but the selection key is priority". *)
Definition npps (ps : list Process) : list Process :=
  run_to_completion priority_rank (length ps) 0 ps.

(** Modelled from the spec: [RuntimeProcess], a process and its
    [remaining_time]. *)
Abbreviation RuntimeProcess := (Process * Z)%type (only parsing).

(** Modelled from the spec: round robin (4.4), missing from the sources.
    The head of the ready queue runs for [min(remaining_time, quantum)];
    processes that arrived during the slice join the tail before the
    preempted process does. *)
Fixpoint rr_loop (quantum : Z) (fuel : nat) (clock : Z) (queue : list RuntimeProcess)
    (future : list Process) : list Process :=
  match fuel with
  | O => []
  | S fuel' =>
      match queue with
      | [] =>
          match future with
          | [] => []
          | f :: _ =>
              let clock := Z.max clock (arrival_time f) in
              rr_loop quantum fuel' clock
                ((λ p, (p, burst_time p)) <$> filter (λ p, arrived id clock p = true) future)
                (filter (λ p, arrived id clock p = false) future)
          end
      | (p, remaining) :: tail =>
          let amount := Z.min remaining quantum in
          let clock := clock + amount in
          let joined := (λ p, (p, burst_time p)) <$>
                          filter (λ p, arrived id clock p = true) future in
          let requeued := if 0 <? remaining - amount then [(p, remaining - amount)] else [] in
          with_burst_time p amount ::
            rr_loop quantum fuel' clock (tail ++ joined ++ requeued)
              (filter (λ p, arrived id clock p = false) future)
      end
  end.

(** Modelled from the spec: round robin from an empty queue at clock 0.  No
    decision sequence is specified for a quantum that is not positive (4.4:
    "reject/clamp otherwise"); the sequence is empty then.  Every step runs
    a process for at least one time unit or admits an arrival, which bounds
    the number of steps. *)
Definition rr (ps : list Process) (quantum : Z) : list Process :=
  if quantum <=? 0 then []
  else rr_loop quantum (length ps + Z.to_nat (total_burst ps)) 0 [] (fcfs ps).

(** Modelled from the spec: "Decision sequence records each uninterrupted
    run segment": a segment is appended to the sequence, or extends its last
    entry when the same process keeps the CPU. *)
Fixpoint record_segment (p : Process) (start amount : Z) (stamp : bool)
    (out : list Process) : list Process :=
  match out with
  | [] => [with_burst_time (if stamp then with_arrival_time p start else p) amount]
  | [s] =>
      if process_id s =? process_id p
      then [with_burst_time s (burst_time s + amount)]
      else [s; with_burst_time (if stamp then with_arrival_time p start else p) amount]
  | s :: rest => s :: record_segment p start amount stamp rest
  end.

(** Modelled from the spec: [remaining_time] is decremented as the process
    runs; a process that reaches 0 leaves the pool. *)
Fixpoint set_remaining (id : Z) (remaining : Z) (pool : list RuntimeProcess)
    : list RuntimeProcess :=
  match pool with
  | [] => []
  | (p, r) :: rest =>
      if process_id p =? id
      then (if 0 <? remaining then (p, remaining) :: rest else rest)
      else (p, r) :: set_remaining id remaining rest
  end.

(** Modelled from the spec: the loop of shortest-remaining-time-first (4.5)
    and of preemptive priority (4.7), missing from the sources.  The choice
    is re-evaluated at every arrival and at every completion; with [stamp]
    the segments carry their absolute start times.  Every step runs some
    process for at least one time unit, so the total burst time bounds the
    number of steps. *)
Fixpoint preemptive_loop (rank : RuntimeProcess → Z) (stamp : bool) (fuel : nat)
    (clock : Z) (pool : list RuntimeProcess) (out : list Process) : list Process :=
  match fuel with
  | O => out
  | S fuel' =>
      let clock := advance fst clock pool in
      match filter (λ a, arrived fst clock a = true) pool with
      | [] => out
      | r :: ready =>
          let '(p, remaining) := best fst rank r ready in
          let amount :=
            match next_arrival fst clock pool with
            | Some t => Z.min remaining (t - clock)
            | None => remaining
            end in
          preemptive_loop rank stamp fuel' (clock + amount)
            (set_remaining (process_id p) (remaining - amount) pool)
            (record_segment p clock amount stamp out)
      end
  end.

(** Modelled from the spec: [remaining_time] is "initialized to burst_time". *)
Definition runtime (ps : list Process) : list RuntimeProcess :=
  (λ p, (p, burst_time p)) <$> ps.

(** Modelled from the spec: shortest-remaining-time-first (4.5), the key is
    [remaining_time]. *)
Definition srtf (ps : list Process) : list Process :=
  preemptive_loop snd false (Z.to_nat (total_burst ps)) 0 (runtime ps) [].

(** Modelled from the spec: preemptive priority (4.7), the key is the
    priority and the segments are stamped with their start times. *)
Definition pps (ps : list Process) : list Process :=
  preemptive_loop (λ a, priority_rank a.1) true (Z.to_nat (total_burst ps)) 0 (runtime ps) [].

(** Modelled from the spec: "Strategies never mutate the caller's Process
    list; they operate on an internal copy": the strategy reads the records
    it is given and returns its decision sequence in new records. *)
Definition on_copy (f : list Process → list Process) : Strategy := λ ps h,
  let out := f (deref_all h ps) in
  Some {| returned := seq (length h) (length out); handed := ps; store := h ++ out |}.

(** Modelled from the spec: the six strategies the page imports. *)
Definition lib : Lib :=
  {| firstComeFirstServe := on_copy fcfs;
     shortestJobFirst := on_copy sjf;
     roundRobin := λ ps quantum, on_copy (λ vs, rr vs quantum) ps;
     shortestRemainingTimeFirst := on_copy srtf;
     nonPreemptivePriority := on_copy npps;
     preemptivePriority := on_copy pps |}.

End SpecLib.

(** ** Metrics, modelled from the specification *)

Module Metrics.

Local Open Scope Z_scope.

(** Modelled from the spec: the per-process metrics (3). *)
Record ProcessMetrics : Type := mkProcessMetrics {
  waiting_time : Z;
  turnaround_time : Z;
}.

(** Modelled from the spec: the slices of a timeline that belong to a
    process (4.9: "for each process find its first slice ... and its last
    slice"). *)
Definition slices_of (p : Process) (tl : list Process) : list Process :=
  filter (λ s, process_id s = process_id p) tl.

(** Modelled from the spec: the metrics calculator (3 and 4.9), which the
    page delegates to the missing [SummaryTable] component.  The completion
    time of a process is the end of its last slice; a process with no slice
    is an error. *)
Definition completion_time (p : Process) (tl : list Process) : option Z :=
  s ← last (slices_of p tl); Some (arrival_time s + burst_time s).

(** Modelled from the spec: "turnaround_time = completion_time -
    arrival_time", "waiting_time = turnaround_time - burst_time". *)
Definition process_metrics (p : Process) (tl : list Process) : option ProcessMetrics :=
  c ← completion_time p tl;
  let turnaround := c - arrival_time p in
  Some {| waiting_time := turnaround - burst_time p; turnaround_time := turnaround |}.

(** Modelled from the spec: the aggregates (3); [cpu_utilization] is the
    quotient of [busy_time] by [total_time]. *)
Record Summary : Type := mkSummary {
  per_process : list ProcessMetrics;
  total_waiting : Z;
  total_turnaround : Z;
  total_time : Z;
  busy_time : Z;
}.

(** Modelled from the spec: "Aggregate by summation"; [total_time] is the
    makespan, [busy_time] the sum of the burst times. *)
Definition summary (originals tl : list Process) : option Summary :=
  per ← mapM (λ p, process_metrics p tl) originals;
  Some {| per_process := per;
          total_waiting := foldr (λ m acc, waiting_time m + acc) 0 per;
          total_turnaround := foldr (λ m acc, turnaround_time m + acc) 0 per;
          total_time := clock_of_last 0 tl;
          busy_time := total_burst originals |}.

(** Modelled from the spec: what a decision sequence owes a process (4.1:
    "what ran and for how long"): the process runs at least once, its run
    amounts add up to its burst time, and no entry of its is placed before
    it arrives. *)
Definition served (p : Process) (entries : list Process) : Prop :=
  slices_of p entries ≠ []
  ∧ total_burst (slices_of p entries) = burst_time p
  ∧ Forall (λ e, arrival_time p ≤ arrival_time e) (slices_of p entries).

Definition servedb (p : Process) (entries : list Process) : bool :=
  negb (length (slices_of p entries) =? 0)%nat
  && (total_burst (slices_of p entries) =? burst_time p)
  && forallb (λ e, arrival_time p <=? arrival_time e) (slices_of p entries).

End Metrics.

(** What a run hands to the presentation components. *)
Definition outcome (r : option (unit * World)) : option (list Process * option Metrics.Summary) :=
  '(_, w') ← r;
  Some (displayed w', Metrics.summary (deref_all (heap w') (processes w')) (displayed w')).

(** ** Valid input and served processes *)

(** Modelled from the spec: the input contract (6), "id (unique positive
    integer), arrival_time ≥ 0, burst_time > 0". *)
Definition valid_input (ps : list Process) : Prop :=
  NoDup (process_id <$> ps)
  ∧ Forall (λ p, (0 ≤ arrival_time p)%Z ∧ (0 < burst_time p)%Z) ps.

#[global] Instance valid_input_dec (ps : list Process) : Decision (valid_input ps).
Proof. unfold valid_input. apply _. Defined.

(** Sums over a list. *)
Definition sum_by {A : Type} (f : A → Z) (l : list A) : Z :=
  foldr (λ a acc, (f a + acc)%Z) 0%Z l.

(** What the queue still owes to [p]. *)
Definition owed (p : Process) (a : Process * Z) : Z :=
  if decide (process_id a.1 = process_id p) then a.2 else 0%Z.

(** An entry of [p] is not placed before [p] arrives. *)
Definition on_time (p e : Process) : Prop :=
  process_id e = process_id p → (arrival_time p ≤ arrival_time e)%Z.

(** The decision-sequence entry of one run segment. *)
Definition segment (q : Process) (start amount : Z) (stamp : bool) : Process :=
  SpecLib.with_burst_time (if stamp then with_arrival_time q start else q) amount.

(** A decision sequence that serves every process of the list. *)
Definition serves_all (ps out : list Process) : Prop :=
  nonnegative_amounts out ∧ ∀ p, p ∈ ps → Metrics.served p out.

(** ** Determinism *)

(** The process list of a page: the records its [processes] array refers to. *)
Definition process_list (w : World) : list Process := deref_all (heap w) (processes w).

(** Two pages that hold the same process list, wherever the records lie in
    the store and whatever else the pages hold. *)
Definition same_input (wa wb : World) : Prop :=
  live (heap wa) (processes wa) ∧ live (heap wb) (processes wb)
  ∧ process_list wa = process_list wb.

(** ** Sample runs *)

Module Sample.

Definition proc (id arrival burst : Z) : Process :=
  {| process_id := id; arrival_time := arrival; burst_time := burst;
     background := "#3b82f6"; priority := None |}.

Definition proc_with_priority (id arrival burst prio : Z) : Process :=
  {| process_id := id; arrival_time := arrival; burst_time := burst;
     background := "#3b82f6"; priority := Some prio |}.

(** The page after the given processes were added, before any run. *)
Definition page (ps : list Process) : World :=
  {| heap := ps; processes := seq 0 (length ps); timeline := []; trace := [] |}.

(** The page after "Clear All", a finished run still on display. *)
Definition cleared_page : World :=
  {| heap := [proc 1 0 5; proc 1 0 5]; processes := []; timeline := [1];
     trace := [Invoke "fCFS" [0] None; ScrollIntoView] |}.

Definition choose (a : string) : FormValues := {| algorithm := a; quantum := None |}.

(** A strategy of another make, which works in place: it counts the burst
    time of every record it is handed down to 0, reverses the array it is
    handed, and returns that array. *)
Definition exhausted (p : Process) : Process :=
  {| process_id := process_id p; arrival_time := arrival_time p; burst_time := 0;
     background := background p; priority := priority p |}.

Definition in_place : Strategy := λ ps h,
  Some {| returned := rev ps; handed := rev ps;
          store := imap (λ r p, if bool_decide (r ∈ ps) then exhausted p else p) h |}.

Definition in_place_lib : Lib :=
  {| firstComeFirstServe := in_place;
     shortestJobFirst := in_place;
     roundRobin := λ ps _, in_place ps;
     shortestRemainingTimeFirst := in_place;
     nonPreemptivePriority := in_place;
     preemptivePriority := in_place |}.

(** The slices a run leaves on display, as (id, start, duration). *)
Definition starts (r : option (unit * World)) : option (list (Z * Z * Z)) :=
  '(_, w') ← r;
  Some ((λ s, (process_id s, arrival_time s, burst_time s)) <$> displayed w').

(** The waiting times a run yields, in the order of the process list. *)
Definition waiting (r : option (unit * World)) : option (list Z) :=
  '(_, summary) ← outcome r;
  s ← summary;
  Some (Metrics.waiting_time <$> Metrics.per_process s).

End Sample.

(** ** The page: editing the process list

    [MainForm] keeps, besides [processes] and [timeline], the index of the
    process being edited, the popover flag and the selected algorithm. *)

(** A key of an object that may be absent. *)
Inductive OptionalKey (A : Type) : Type :=
  | Absent
  | Present (value : A).

Arguments Absent {A}.
Arguments Present {A} value.

(** [ProcessFormValues], the values the process form hands to [addProcess].
    The type is declared with the form component.  [{ ...data, process_id }]
    has to be a [Process], so the arrival time, the burst time and the
    colour are there; an id and a priority are keys the values may or may
    not carry, and a priority that is carried may be [undefined]. *)
Record ProcessFormValues : Type := mkProcessFormValues {
  form_process_id : OptionalKey Z;
  form_arrival_time : Z;
  form_burst_time : Z;
  form_background : string;
  form_priority : OptionalKey (option Z);
}.

(** [{ ...data, process_id: id }] *)
Definition create (data : ProcessFormValues) (id : Z) : Process :=
  {| process_id := id;
     arrival_time := form_arrival_time data;
     burst_time := form_burst_time data;
     background := form_background data;
     priority := match form_priority data with
                 | Absent => None
                 | Present v => v
                 end |}.

(** [{ ...p, ...data }] *)
Definition merge (p : Process) (data : ProcessFormValues) : Process :=
  {| process_id := match form_process_id data with
                   | Absent => process_id p
                   | Present id => id
                   end;
     arrival_time := form_arrival_time data;
     burst_time := form_burst_time data;
     background := form_background data;
     priority := match form_priority data with
                 | Absent => priority p
                 | Present v => v
                 end |}.

Record Page : Type := mkPage {
  world : World;
  editIndex : option nat;        (* number | null *)
  popoverOpen : bool;
  selectedAlgorithm : string;
}.

(** [useState] initial values. *)
Definition initial_page : Page :=
  {| world := {| heap := []; processes := []; timeline := []; trace := [] |};
     editIndex := None; popoverOpen := false; selectedAlgorithm := "" |}.

Definition setProcesses (ps : list loc) : M unit := λ w,
  Some (tt, {| heap := heap w; processes := ps;
               timeline := timeline w; trace := trace w |}).

(** [xs.map((x, i) => f(x, i))], from index [i] on. *)
Fixpoint map_indexed (f : loc → nat → M loc) (xs : list loc) (i : nat) : M (list loc) :=
  match xs with
  | [] => mret []
  | x :: rest => y ← f x i; ys ← map_indexed f rest (S i); mret (y :: ys)
  end.

(** The callback of the edit branch: [(p, i) => i === editIndex ? { ...p, ...data } : p]. *)
Definition replace_at (idx : nat) (data : ProcessFormValues) (p : loc) (i : nat) : M loc :=
  if (i =? idx)%nat then old ← read p; new (merge old data) else mret p.

Definition addProcess (data : ProcessFormValues) (pg : Page) : option Page :=
  '(_, w) ← match editIndex pg with
            | Some idx =>
                (prev ← getProcesses;
                 next ← map_indexed (replace_at idx data) prev 0;
                 setProcesses next) (world pg)
            | None =>
                (prev ← getProcesses;
                 added ← new (create data (Z.of_nat (length prev) + 1));
                 setProcesses (prev ++ [added])) (world pg)
            end;
  Some {| world := w; editIndex := None; popoverOpen := false;
          selectedAlgorithm := selectedAlgorithm pg |}.

(** The pencil icon of row [idx]: [setEditIndex(idx); setPopoverOpen(true)]. *)
Definition onEditClick (idx : nat) (pg : Page) : Page :=
  {| world := world pg; editIndex := Some idx; popoverOpen := true;
     selectedAlgorithm := selectedAlgorithm pg |}.

(** [<Popover onOpenChange={setPopoverOpen}>] *)
Definition onOpenChange (open : bool) (pg : Page) : Page :=
  {| world := world pg; editIndex := editIndex pg; popoverOpen := open;
     selectedAlgorithm := selectedAlgorithm pg |}.

(** The "Clear All" button: [setProcesses([])]. *)
Definition clearAll (pg : Page) : Page :=
  {| world := {| heap := heap (world pg); processes := [];
                 timeline := timeline (world pg); trace := trace (world pg) |};
     editIndex := editIndex pg; popoverOpen := popoverOpen pg;
     selectedAlgorithm := selectedAlgorithm pg |}.

(** The algorithm picker: [field.onChange(v); setSelectedAlgorithm(v)]. *)
Definition onValueChange (v : string) (pg : Page) : Page :=
  {| world := world pg; editIndex := editIndex pg; popoverOpen := popoverOpen pg;
     selectedAlgorithm := v |}.

(** [<form onSubmit={form.handleSubmit(onSubmit)}>] on the page. *)
Definition submit (lib : Lib) (i : FormInput) (pg : Page) : option Page :=
  '(_, w) ← handleSubmit lib i (world pg);
  Some {| world := w; editIndex := editIndex pg; popoverOpen := popoverOpen pg;
          selectedAlgorithm := selectedAlgorithm pg |}.

Definition showPriority (pg : Page) : bool :=
  (selectedAlgorithm pg =? "NPPS") || (selectedAlgorithm pg =? "PPS").

(** The records of the process list, as the list card renders them. *)
Definition listed (pg : Page) : list Process :=
  deref_all (heap (world pg)) (processes (world pg)).

(** What the user does to the process list. *)
Inductive Action : Type :=
  | SaveProcess (data : ProcessFormValues)      (* the process form is submitted *)
  | EditClick (idx : nat)
  | OpenChange (open : bool)
  | ClearAll
  | SelectAlgorithm (v : string).

Definition perform (a : Action) (pg : Page) : option Page :=
  match a with
  | SaveProcess data => addProcess data pg
  | EditClick idx => Some (onEditClick idx pg)
  | OpenChange open => Some (onOpenChange open pg)
  | ClearAll => Some (clearAll pg)
  | SelectAlgorithm v => Some (onValueChange v pg)
  end.

Fixpoint perform_all (actions : list Action) (pg : Page) : option Page :=
  match actions with
  | [] => Some pg
  | a :: rest => pg' ← perform a pg; perform_all rest pg'
  end.

(** The process form supplies no id of its own. *)
Definition carries_no_id (a : Action) : bool :=
  match a with
  | SaveProcess data => match form_process_id data with Absent => true | Present _ => false end
  | _ => true
  end.

(** The ids of the list are 1, 2, ... in list order, and every row is a
    live record. *)
Definition ids_in_order (pg : Page) : Prop :=
  live (heap (world pg)) (processes (world pg))
  ∧ process_id <$> listed pg = (λ i, Z.of_nat i) <$> seq 1 (length (processes (world pg))).

(** A step that reports nothing and sets neither state cell. *)
Definition untouched (w w' : World) : Prop :=
  trace w' = trace w ∧ processes w' = processes w ∧ timeline w' = timeline w.

(** The results block, rendered when the timeline is not empty: the props
    the page hands to [GanttChart], [SummaryTable] and [SummaryStatistics].
    The [metrics] state, which [SummaryTable] reports back through
    [onMetrics], is set by that component and is not part of the page's own
    code. *)
Record Results : Type := mkResults {
  gantt_processes : list Process;     (* <GanttChart processes={timeline} /> *)
  originalProcesses : list Process;   (* <SummaryTable originalProcesses={processes} *)
  scheduledProcesses : list Process;  (*   scheduledProcesses={timeline} *)
  summary_algorithm : string;         (*   algorithm={selectedAlgorithm} /> *)
  totalProcesses : nat;     (* <SummaryStatistics totalProcesses={processes.length} /> *)
}.

Definition results (pg : Page) : option Results :=
  if results_rendered (world pg)
  then Some {| gantt_processes := displayed (world pg);
               originalProcesses := listed pg;
               scheduledProcesses := displayed (world pg);
               summary_algorithm := selectedAlgorithm pg;
               totalProcesses := length (processes (world pg)) |}
  else None.

(** ** The disk chart *)

Module DiskChart.

(** One point of the line chart: [{ step: idx, track }]. *)
Record Point : Type := mkPoint {
  step : nat;
  track : Z;
}.

(** [sequence.map((track, idx) => ({ step: idx, track }))] *)
Definition data (sequence : list Z) : list Point :=
  imap (λ idx track, {| step := idx; track := track |}) sequence.

End DiskChart.

(** * Proofs *)

(** ** Basic facts: the store and the monad *)

Section Store.

Implicit Types (h : Heap) (refs : list loc) (w : World).

Lemma live_app h k refs : live h refs → live (h ++ k) refs.
Proof.
  unfold live. intros H. eapply Forall_impl; [exact H|].
  intros r Hr. cbn in Hr |- *. rewrite length_app. lia.
Qed.

Lemma liveb_live h refs : liveb h refs = true ↔ live h refs.
Proof.
  unfold liveb, live. rewrite forallb_forall, Forall_forall.
  split; intros H r Hr.
  - apply Nat.ltb_lt, H. by apply list_elem_of_In.
  - apply Nat.ltb_lt, H. by apply list_elem_of_In.
Qed.

Lemma deref_all_cons h r refs p :
  h !! r = Some p → deref_all h (r :: refs) = p :: deref_all h refs.
Proof. intros Hp. unfold deref_all. cbn. by rewrite Hp. Qed.

Lemma deref_all_app h k refs : live h refs → deref_all (h ++ k) refs = deref_all h refs.
Proof.
  induction 1 as [|r refs Hr _ IH]; [done|].
  destruct (lookup_lt_is_Some_2 h r Hr) as [p Hp].
  rewrite (deref_all_cons (h ++ k) r refs p), (deref_all_cons h r refs p); [|done|].
  - by rewrite IH.
  - by rewrite lookup_app_l.
Qed.

Lemma deref_all_length h refs : live h refs → length (deref_all h refs) = length refs.
Proof.
  induction 1 as [|r refs Hr _ IH]; [done|].
  destruct (lookup_lt_is_Some_2 h r Hr) as [p Hp].
  rewrite (deref_all_cons _ _ _ _ Hp). cbn. by rewrite IH.
Qed.

(** Records allocated in a row are read back in that order. *)
Lemma deref_all_fresh h k : deref_all (h ++ k) (seq (length h) (length k)) = k.
Proof.
  revert h. induction k as [|p k IH]; intros h; [done|].
  cbn [length seq].
  rewrite (deref_all_cons _ _ _ p).
  - f_equal. replace (h ++ p :: k) with ((h ++ [p]) ++ k) by by rewrite <- app_assoc.
    replace (S (length h)) with (length (h ++ [p])) by (rewrite length_app; cbn; lia).
    apply IH.
  - rewrite lookup_app_r by lia. by rewrite Nat.sub_diag.
Qed.

Lemma live_fresh h k : live (h ++ k) (seq (length h) (length k)).
Proof.
  unfold live. apply Forall_forall. intros r Hr.
  apply list_elem_of_In, in_seq in Hr. rewrite length_app. lia.
Qed.

End Store.

(** ** The two assembly loops *)

Section Assembly.

Implicit Types (w : World) (raw tl : list loc) (clock : Z).

(** The second loop allocates one stamped copy per entry, in order, and
    leaves every record that was already in the store as it is. *)
Lemma forEach_push_stamped raw : ∀ w tl clock,
  live (heap w) raw →
  forEach raw push_stamped (tl, clock) w =
    Some ((tl ++ seq (length (heap w)) (length raw),
           time_from clock (deref_all (heap w) raw)),
          {| heap := heap w ++ copies_from clock (deref_all (heap w) raw);
             processes := processes w; timeline := timeline w; trace := trace w |}).
Proof.
  induction raw as [|r raw IH]; intros w tl clock Hlive.
  - cbn. unfold mret, M_ret. rewrite !app_nil_r. by destruct w.
  - apply Forall_cons in Hlive as [Hr Hraw].
    destruct (lookup_lt_is_Some_2 (heap w) r Hr) as [p Hp].
    rewrite (deref_all_cons _ _ _ _ Hp).
    cbn [forEach]. unfold mbind, M_bind at 1.
    unfold push_stamped, mbind, M_bind, read, new, alloc, mret, M_ret. rewrite Hp.
    rewrite IH by (cbn; by apply live_app).
    cbn [heap processes timeline trace length seq copies_from time_from].
    rewrite (deref_all_app _ _ _ Hraw).
    rewrite <- !app_assoc. cbn [app].
    rewrite length_app. cbn [length]. by rewrite Nat.add_1_r.
Qed.

(** The first loop pushes the references it is handed and allocates nothing. *)
Lemma forEach_push_slice raw : ∀ w tl clock,
  live (heap w) raw →
  forEach raw push_slice (tl, clock) w =
    Some ((tl ++ raw, time_of_last clock (deref_all (heap w) raw)), w).
Proof.
  induction raw as [|r raw IH]; intros w tl clock Hlive.
  - cbn. unfold mret, M_ret. by rewrite app_nil_r.
  - apply Forall_cons in Hlive as [Hr Hraw].
    destruct (lookup_lt_is_Some_2 (heap w) r Hr) as [p Hp].
    rewrite (deref_all_cons _ _ _ _ Hp).
    cbn [forEach]. unfold mbind, M_bind at 1.
    unfold push_slice, mbind, M_bind, read, mret, M_ret. rewrite Hp.
    rewrite IH by done. rewrite <- app_assoc. cbn [app].
    do 3 f_equal. unfold time_of_last. rewrite last_cons.
    by destruct (last (deref_all (heap w) raw)).
Qed.

End Assembly.

(** ** Exact walks *)

Section Exact.

Implicit Types (entries : list Process) (clock n : Z).

Lemma safe_integerb_spec n : safe_integerb n = true ↔ safe_integer n.
Proof.
  unfold safe_integerb, safe_integer. rewrite andb_true_iff, !Z.leb_le. done.
Qed.

Lemma exact_fromb_spec entries : ∀ clock, exact_fromb clock entries = true ↔ exact_from clock entries.
Proof.
  induction entries as [|e entries IH]; intros clock; cbn [exact_fromb exact_from]; [done|].
  rewrite !andb_true_iff, !safe_integerb_spec, IH. tauto.
Qed.

(** A sum that is a safe integer is computed exactly. *)
Lemma number_add_exact (a b : Z) : safe_integer (a + b) → number_add a b = (a + b)%Z.
Proof.
  unfold safe_integer, MAX_SAFE_INTEGER, number_add, round64. intros Hsafe.
  destruct (Z.leb_spec (Z.abs (a + b)) 9007199254740992); [done|lia].
Qed.

(** On an exact walk the program computes the recurrence of the
    specification. *)
Lemma copies_from_exact entries : ∀ clock,
  exact_from clock entries →
  copies_from clock entries = stamp_from clock entries
  ∧ time_from clock entries = clock_from clock entries.
Proof.
  induction entries as [|e entries IH]; intros clock Hexact; [done|].
  destruct Hexact as (_ & _ & Hend & Hrest).
  cbn [copies_from stamp_from time_from clock_from].
  rewrite (number_add_exact _ _ Hend).
  destruct (IH _ Hrest) as [-> ->]. done.
Qed.

Lemma copies_from_length entries : ∀ clock, length (copies_from clock entries) = length entries.
Proof. induction entries as [|e entries IH]; intros clock; cbn; [done|]. by rewrite IH. Qed.

End Exact.

(** ** The handler, step by step *)

Section Handler.

Variable lib : Lib.

Implicit Types (w : World) (values : FormValues) (raw ps : list loc).

Ltac switch_cases values :=
  unfold run_strategy;
  destruct (algorithm values =? "fCFS") eqn:?;
  [|destruct (algorithm values =? "SJF") eqn:?;
    [|destruct (algorithm values =? "RR") eqn:?;
      [|destruct (algorithm values =? "SRTF") eqn:?;
        [|destruct (algorithm values =? "NPPS") eqn:?;
          [|destruct (algorithm values =? "PPS") eqn:?]]]]].

(** The empty-list guard: one notification, nothing else. *)
Lemma onSubmit_empty values w :
  processes w = [] →
  onSubmit lib values w =
    Some (tt, {| heap := heap w; processes := processes w; timeline := timeline w;
                 trace := trace w ++ [ToastError "No processes added!"] |}).
Proof.
  intros Hempty. unfold onSubmit, getProcesses, mbind, M_bind.
  replace (length (processes w)) with 0%nat by (by rewrite Hempty).
  reflexivity.
Qed.

(** Past the empty-list guard the handler is the switch, one of the two
    loops, and the two state updates. *)
Lemma onSubmit_runs values w raw w1 :
  processes w ≠ [] →
  run_strategy lib values (processes w) w = Some (raw, w1) →
  live (heap w1) raw →
  onSubmit lib values w =
    Some (tt,
      if algorithm values =? "PPS"
      then {| heap := heap w1; processes := processes w1; timeline := raw;
              trace := trace w1 ++ [ScrollIntoView] |}
      else {| heap := heap w1 ++ copies_from 0 (deref_all (heap w1) raw);
              processes := processes w1;
              timeline := seq (length (heap w1)) (length raw);
              trace := trace w1 ++ [ScrollIntoView] |}).
Proof.
  intros Hne Hraw Hlive.
  unfold onSubmit, getProcesses. unfold mbind at 1, M_bind at 1.
  destruct (processes w) as [|p ps] eqn:Hpw; [done|]. cbn [length Nat.eqb].
  unfold mbind at 1, M_bind at 1. rewrite Hraw.
  unfold mbind at 1, M_bind at 1.
  destruct (algorithm values =? "PPS").
  - rewrite forEach_push_slice by done.
    unfold mbind, M_bind, setTimeline, emit. by cbn.
  - rewrite forEach_push_stamped by done.
    unfold mbind, M_bind, setTimeline, emit. by cbn.
Qed.

End Handler.

Section SpecAssembler.

Implicit Types (entries : list Process) (clock : Z).

Lemma stamp_from_length entries : ∀ clock, length (stamp_from clock entries) = length entries.
Proof. induction entries as [|e entries IH]; intros clock; cbn; [done|]. by rewrite IH. Qed.

Lemma stamp_from_lookup entries : ∀ clock i e,
  entries !! i = Some e →
  stamp_from clock entries !! i =
    Some (with_arrival_time e (Z.max (clock_from clock (take i entries)) (arrival_time e))).
Proof.
  induction entries as [|e0 entries IH]; intros clock i e Hi; [done|].
  destruct i as [|i]; cbn in Hi |- *.
  - by injection Hi as ->.
  - by apply IH.
Qed.

Lemma clock_from_take_S entries : ∀ clock i e,
  entries !! i = Some e →
  clock_from clock (take (S i) entries) =
    (Z.max (clock_from clock (take i entries)) (arrival_time e) + burst_time e)%Z.
Proof.
  induction entries as [|e0 entries IH]; intros clock i e Hi; [done|].
  destruct i as [|i].
  - cbn in Hi. injection Hi as ->. cbn. by destruct entries.
  - cbn in Hi. change (take (S (S i)) (e0 :: entries)) with (e0 :: take (S i) entries).
    change (take (S i) (e0 :: entries)) with (e0 :: take i entries).
    cbn [clock_from]. by apply IH.
Qed.

Lemma stamp_from_ids entries : ∀ clock,
  process_id <$> stamp_from clock entries = process_id <$> entries.
Proof. induction entries as [|e entries IH]; intros clock; cbn; [done|]. by rewrite IH. Qed.

End SpecAssembler.

(** What the handler leaves on display for an algorithm other than
    preemptive priority: the copies it made of the decision sequence. *)
Lemma onSubmit_displays_copies (lib : Lib) (values : FormValues) (w w1 : World)
    (raw : list loc) :
  processes w ≠ [] →
  (algorithm values =? "PPS") = false →
  run_strategy lib values (processes w) w = Some (raw, w1) →
  live (heap w1) raw →
  ∃ w', onSubmit lib values w = Some (tt, w')
        ∧ displayed w' = copies_from 0 (deref_all (heap w1) raw)
        ∧ heap w' = heap w1 ++ copies_from 0 (deref_all (heap w1) raw)
        ∧ processes w' = processes w1
        ∧ trace w' = trace w1 ++ [ScrollIntoView].
Proof.
  intros Hne Halg Hrun Hlive.
  rewrite (onSubmit_runs lib values w raw w1 Hne Hrun Hlive), Halg.
  eexists. split; [reflexivity|]. split; [|done].
  unfold displayed. cbn [heap timeline].
  replace (length raw) with (length (copies_from 0 (deref_all (heap w1) raw))).
  - apply deref_all_fresh.
  - by rewrite copies_from_length, deref_all_length.
Qed.

(** On an exact walk these are the slices of the specification's assembler. *)
Lemma onSubmit_displays_stamped (lib : Lib) (values : FormValues) (w w1 : World)
    (raw : list loc) :
  processes w ≠ [] →
  (algorithm values =? "PPS") = false →
  run_strategy lib values (processes w) w = Some (raw, w1) →
  live (heap w1) raw →
  exact_from 0 (deref_all (heap w1) raw) →
  ∃ w', onSubmit lib values w = Some (tt, w')
        ∧ displayed w' = stamp_from 0 (deref_all (heap w1) raw)
        ∧ heap w' = heap w1 ++ stamp_from 0 (deref_all (heap w1) raw)
        ∧ trace w' = trace w1 ++ [ScrollIntoView].
Proof.
  intros Hne Halg Hrun Hlive Hexact.
  destruct (onSubmit_displays_copies lib values w w1 raw Hne Halg Hrun Hlive)
    as (w' & Hw' & Hshown & Hheap & _ & Htrace).
  destruct (copies_from_exact _ _ Hexact) as [Hcopies _].
  exists w'. by rewrite <- Hcopies.
Qed.

(** ** Ordered timelines *)

Section Ordered.

Implicit Types (tl entries : list Process) (clock : Z).

Lemma ordered_fromb_spec tl : ∀ clock, ordered_fromb clock tl = true ↔ ordered_from clock tl.
Proof.
  induction tl as [|s tl IH]; intros clock; cbn; [done|].
  rewrite andb_true_iff, Z.leb_le, IH. done.
Qed.

Lemma nonnegative_amountsb_spec tl : nonnegative_amountsb tl = true ↔ nonnegative_amounts tl.
Proof.
  unfold nonnegative_amountsb, nonnegative_amounts.
  rewrite forallb_forall, Forall_forall. split; intros H s Hs.
  - apply Z.leb_le, H. by apply list_elem_of_In.
  - apply Z.leb_le, H. by apply list_elem_of_In.
Qed.

Lemma ordered_from_weaken tl clock clock' :
  (clock' ≤ clock)%Z → ordered_from clock tl → ordered_from clock' tl.
Proof. destruct tl as [|s tl]; cbn; [done|]. intros ? [? ?]. split; [lia|done]. Qed.

(** No slice of an ordered timeline starts before the clock. *)
Lemma ordered_from_lower_bound tl : ∀ clock i s,
  nonnegative_amounts tl → ordered_from clock tl → tl !! i = Some s →
  (clock ≤ arrival_time s)%Z.
Proof.
  induction tl as [|s0 tl IH]; intros clock i s Hnn Hord Hi; [done|].
  apply Forall_cons in Hnn as [Hs0 Hnn]. destruct Hord as [Hc Hord].
  destruct i as [|i]; cbn in Hi.
  - by injection Hi as <-.
  - specialize (IH _ _ _ Hnn Hord Hi). lia.
Qed.

(** Any later slice starts at or after the end of any earlier one. *)
Lemma ordered_from_pairwise tl : ∀ clock i j s t,
  nonnegative_amounts tl → ordered_from clock tl → i < j →
  tl !! i = Some s → tl !! j = Some t →
  (arrival_time s ≤ arrival_time t)%Z ∧ (arrival_time s + burst_time s ≤ arrival_time t)%Z.
Proof.
  induction tl as [|s0 tl IH]; intros clock i j s t Hnn Hord Hij Hi Hj; [done|].
  apply Forall_cons in Hnn as [Hs0 Hnn]. destruct Hord as [Hc Hord].
  destruct j as [|j]; [lia|]. cbn in Hj.
  destruct i as [|i]; cbn in Hi.
  - injection Hi as <-.
    pose proof (ordered_from_lower_bound _ _ _ _ Hnn Hord Hj). lia.
  - eapply (IH _ i j); [done|exact Hord|lia|done|done].
Qed.

Lemma stamp_from_ordered entries : ∀ clock, ordered_from clock (stamp_from clock entries).
Proof.
  induction entries as [|e entries IH]; intros clock; cbn; [done|].
  split; [lia|apply IH].
Qed.

Lemma stamp_from_amounts entries : ∀ clock,
  nonnegative_amounts entries → nonnegative_amounts (stamp_from clock entries).
Proof.
  unfold nonnegative_amounts.
  induction entries as [|e entries IH]; intros clock Hnn; cbn; [done|].
  apply Forall_cons in Hnn as [He Hnn]. constructor; [done|by apply IH].
Qed.

(** Where a slice starts relative to the one before it. *)
Lemma stamp_from_next entries clock i s t e :
  stamp_from clock entries !! i = Some s →
  stamp_from clock entries !! S i = Some t →
  entries !! S i = Some e →
  arrival_time t = Z.max (arrival_time s + burst_time s) (arrival_time e).
Proof.
  intros Hs Ht He.
  destruct (lookup_lt_is_Some_2 entries i) as [ei Hei].
  { apply lookup_lt_Some in He. lia. }
  rewrite (stamp_from_lookup _ _ _ _ Hei) in Hs.
  rewrite (stamp_from_lookup _ _ _ _ He) in Ht.
  rewrite (clock_from_take_S _ _ _ _ Hei) in Ht.
  injection Hs as <-. injection Ht as <-. done.
Qed.

Lemma stamp_from_first entries clock s e :
  stamp_from clock entries !! 0 = Some s → entries !! 0 = Some e →
  arrival_time s = Z.max clock (arrival_time e).
Proof. destruct entries; [done|]. cbn. by intros [= <-] [= <-]. Qed.

End Ordered.

(** ** The quantum *)

Section Quantum.

Variable lib : Lib.

Lemma FormSchema_accepts (a : string) (q : option Z) :
  (∀ q0, q = Some q0 → (q0 ≤ 100)%Z) →
  FormSchema {| in_algorithm := Some a; in_quantum := q |} =
    inr {| algorithm := a; quantum := q |}.
Proof.
  intros Hq. unfold FormSchema. cbn.
  destruct q as [q0|]; [|done].
  specialize (Hq q0 eq_refl). apply Z.leb_le in Hq. by rewrite Hq.
Qed.

Lemma run_strategy_ignores_quantum (a : string) (q1 q2 : option Z) (ps : list loc) :
  a ≠ "RR" →
  run_strategy lib {| algorithm := a; quantum := q1 |} ps =
  run_strategy lib {| algorithm := a; quantum := q2 |} ps.
Proof.
  intros Ha. apply String.eqb_neq in Ha.
  unfold run_strategy. cbn [algorithm quantum]. by rewrite Ha.
Qed.

End Quantum.

(** ** The handler past the empty-list guard *)

Section Unfolding.

Variable lib : Lib.

Lemma onSubmit_unfold (values : FormValues) (w : World) :
  processes w ≠ [] →
  onSubmit lib values w =
    match (raw ← run_strategy lib values (processes w);
           if algorithm values =? "PPS"
           then forEach raw push_slice ([], 0%Z)
           else forEach raw push_stamped ([], 0%Z)) w with
    | Some (r, w2) =>
        Some (tt, {| heap := heap w2; processes := processes w2; timeline := r.1;
                     trace := trace w2 ++ [ScrollIntoView] |})
    | None => None
    end.
Proof.
  intros Hne. unfold onSubmit, getProcesses. unfold mbind at 1, M_bind at 1.
  destruct (processes w) as [|r ps]; [done|]. cbn [length Nat.eqb].
  unfold mbind, M_bind.
  destruct (run_strategy lib values (r :: ps) w) as [[raw w1]|]; [|done].
  destruct (algorithm values =? "PPS").
  - by destruct (forEach raw push_slice _ w1) as [[r2 w2]|].
  - by destruct (forEach raw push_stamped _ w1) as [[r2 w2]|].
Qed.

End Unfolding.

(** ** Waiting and turnaround times *)

Section MetricsBounds.

Import Metrics.
Local Open Scope Z_scope.

Implicit Types (p s e : Process) (tl entries : list Process) (clock : Z).

Lemma servedb_spec p entries : servedb p entries = true ↔ served p entries.
Proof.
  unfold servedb, served.
  rewrite !andb_true_iff, negb_true_iff, Nat.eqb_neq, Z.eqb_eq, forallb_forall, Forall_forall.
  split.
  - intros [[Hne Hsum] Hall]. split; [|split; [done|]].
    + intros Hnil. by rewrite Hnil in Hne.
    + intros e He. apply Z.leb_le, Hall. by apply list_elem_of_In.
  - intros (Hne & Hsum & Hall). split; [split; [|done]|].
    + by destruct (slices_of p entries).
    + intros e He. apply Z.leb_le, Hall. by apply list_elem_of_In.
Qed.

Lemma slices_of_cons p s tl :
  slices_of p (s :: tl) =
    if decide (process_id s = process_id p) then s :: slices_of p tl else slices_of p tl.
Proof. unfold slices_of. by rewrite filter_cons. Qed.

(** In an ordered timeline the last slice of a process ends no earlier than
    a bound on its slices' starts plus everything the process ran. *)
Lemma completion_after_service p tl : ∀ clock bound,
  nonnegative_amounts tl →
  ordered_from clock tl →
  Forall (λ s, bound ≤ arrival_time s) (slices_of p tl) →
  slices_of p tl ≠ [] →
  ∃ c, completion_time p tl = Some c ∧ bound + total_burst (slices_of p tl) ≤ c.
Proof.
  unfold completion_time.
  induction tl as [|s tl IH]; intros clock bound Hnn Hord Hbound Hne; [done|].
  pose proof Hnn as Hnn0. apply Forall_cons in Hnn as [Hs Hnn]. destruct Hord as [Hc Hord].
  rewrite slices_of_cons in *.
  destruct (decide (process_id s = process_id p)) as [Hid|Hid].
  - apply Forall_cons in Hbound as [Hbs Hbound].
    destruct (slices_of p tl) as [|s' rest] eqn:Hrest.
    + exists (arrival_time s + burst_time s). cbn. split; [done|lia].
    + destruct (IH (arrival_time s + burst_time s) (arrival_time s + burst_time s))
        as (c & Hlast & Hc'); [done|done| |done|].
      * apply Forall_forall. intros s2 Hs2. rewrite <- Hrest in Hs2.
        apply list_elem_of_filter in Hs2 as [_ Hs2].
        apply list_elem_of_lookup in Hs2 as [i Hi].
        by apply (ordered_from_lower_bound tl _ i).
      * exists c. split.
        -- rewrite last_cons. by destruct (last (s' :: rest)).
        -- cbn [total_burst foldr] in Hc' |- *. lia.
  - by apply (IH (arrival_time s + burst_time s) bound).
Qed.

(** Stamping keeps the identifiers and the run amounts, and moves no entry
    before its own arrival time. *)
Lemma slices_of_stamp_from p entries : ∀ clock,
  total_burst (slices_of p (stamp_from clock entries)) = total_burst (slices_of p entries)
  ∧ (slices_of p entries ≠ [] → slices_of p (stamp_from clock entries) ≠ [])
  ∧ ∀ bound, Forall (λ e, bound ≤ arrival_time e) (slices_of p entries) →
             Forall (λ s, bound ≤ arrival_time s) (slices_of p (stamp_from clock entries)).
Proof.
  induction entries as [|e entries IH]; intros clock; [done|].
  cbn [stamp_from]. rewrite !slices_of_cons. cbn [with_arrival_time process_id].
  destruct (IH (Z.max clock (arrival_time e) + burst_time e)) as (Hsum & Hne & Hall).
  destruct (decide (process_id e = process_id p)).
  - split; [|split].
    + cbn. f_equal. exact Hsum.
    + done.
    + intros bound Hb. apply Forall_cons in Hb as [Hbe Hb].
      constructor; [cbn; lia|by apply Hall].
  - done.
Qed.

End MetricsBounds.

(** ** The modelled strategies serve every process *)

Section Candidates.

Import SpecLib.
Local Open Scope Z_scope.

Context {A : Type} (proc : A → Process).

Implicit Types (a : A) (pool : list A) (clock : Z).

Lemma best_elem rank a pool : best proc rank a pool ∈ a :: pool.
Proof.
  revert a. induction pool as [|b pool IH]; intros a; cbn.
  - apply list_elem_of_here.
  - specialize (IH (if before proc rank b a then b else a)).
    apply elem_of_cons in IH as [->|IH].
    + destruct (before proc rank b a); [right; left|left].
    + by do 2 right.
Qed.

Lemma next_arrival_Some clock pool t :
  next_arrival proc clock pool = Some t →
  clock < t ∧ ∃ a, a ∈ pool ∧ arrival_time (proc a) = t.
Proof.
  revert t. induction pool as [|a pool IH]; intros t; cbn; [done|].
  destruct (next_arrival proc clock pool) as [u|].
  - destruct (IH u eq_refl) as (Hu & b & Hb & Hbu).
    destruct ((clock <? arrival_time (proc a)) && (arrival_time (proc a) <? u)) eqn:Hc;
      intros [= <-].
    + apply andb_true_iff in Hc as [Hc _]. apply Z.ltb_lt in Hc.
      split; [done|]. exists a. split; [left|done].
    + split; [done|]. exists b. split; [by right|done].
  - destruct (clock <? arrival_time (proc a)) eqn:Hc; [|done]. intros [= <-].
    apply Z.ltb_lt in Hc. split; [done|]. exists a. split; [left|done].
Qed.

Lemma next_arrival_None clock pool :
  next_arrival proc clock pool = None → ∀ a, a ∈ pool → arrival_time (proc a) ≤ clock.
Proof.
  induction pool as [|b pool IH]; cbn; intros Hnone a Ha.
  - by apply elem_of_nil in Ha.
  - destruct (next_arrival proc clock pool) as [u|]; [done|].
    destruct (clock <? arrival_time (proc b)) eqn:Hc; [done|].
    apply Z.ltb_ge in Hc.
    apply elem_of_cons in Ha as [->|Ha]; [done|by apply IH].
Qed.

(** Some candidate has arrived once the clock was advanced. *)
Lemma advance_ready clock pool :
  pool ≠ [] → filter (λ a, arrived proc (advance proc clock pool) a = true) pool ≠ [].
Proof.
  intros Hne. unfold advance.
  destruct (existsb (arrived proc clock) pool) eqn:Hex.
  - apply existsb_exists in Hex as (a & Ha & Harr).
    intros Hnil. assert (Hin : a ∈ filter (λ a, arrived proc clock a = true) pool).
    { apply list_elem_of_filter. split; [done|by apply list_elem_of_In]. }
    rewrite Hnil in Hin. by apply elem_of_nil in Hin.
  - destruct (next_arrival proc clock pool) as [t|] eqn:Hnext; cbn.
    + destruct (next_arrival_Some _ _ _ Hnext) as (_ & a & Ha & Hat).
      intros Hnil. assert (Hin : a ∈ filter (λ a, arrived proc t a = true) pool).
      { apply list_elem_of_filter. split; [|done].
        unfold arrived. apply Z.leb_le. lia. }
      rewrite Hnil in Hin. by apply elem_of_nil in Hin.
    + destruct pool as [|a pool]; [done|].
      pose proof (next_arrival_None _ _ Hnext a (list_elem_of_here _ _)) as Ha.
      cbn in Hex. apply orb_false_elim in Hex as [Hex _].
      unfold arrived in Hex. apply Z.leb_gt in Hex. lia.
Qed.

Lemma advance_ge clock pool : clock ≤ advance proc clock pool.
Proof.
  unfold advance. destruct (existsb _ _); [lia|].
  destruct (next_arrival proc clock pool) as [t|] eqn:Hnext; cbn; [|lia].
  apply next_arrival_Some in Hnext. lia.
Qed.

Lemma remove_id_perm a pool :
  NoDup (process_id ∘ proc <$> pool) → a ∈ pool →
  pool ≡ₚ a :: remove_id proc (process_id (proc a)) pool.
Proof.
  induction pool as [|b pool IH]; intros Hnd Ha; [by apply elem_of_nil in Ha|].
  cbn in Hnd. apply NoDup_cons in Hnd as [Hb Hnd]. cbn.
  destruct (process_id (proc b) =? process_id (proc a)) eqn:Hid.
  - apply Z.eqb_eq in Hid.
    apply elem_of_cons in Ha as [->|Ha]; [done|].
    exfalso. apply Hb. rewrite Hid.
    apply (list_elem_of_fmap_2 (process_id ∘ proc)) in Ha. done.
  - apply Z.eqb_neq in Hid.
    apply elem_of_cons in Ha as [->|Ha]; [done|].
    rewrite (IH Hnd Ha) at 1. apply Permutation_swap.
Qed.

End Candidates.

Section NonPreemptive.

Import SpecLib Metrics.
Local Open Scope Z_scope.

Implicit Types (p : Process) (ps pending out : list Process).

Lemma slices_of_none ps p :
  process_id p ∉ process_id <$> ps → slices_of p ps = [].
Proof.
  unfold slices_of. induction ps as [|q ps IH]; intros Hp; [done|].
  cbn in Hp. apply not_elem_of_cons in Hp as [Hq Hp].
  rewrite filter_cons, decide_False by done. by apply IH.
Qed.

Lemma slices_of_unique ps p :
  NoDup (process_id <$> ps) → p ∈ ps → slices_of p ps = [p].
Proof.
  induction ps as [|q ps IH]; intros Hnd Hp; [by apply elem_of_nil in Hp|].
  cbn in Hnd. apply NoDup_cons in Hnd as [Hq Hnd].
  unfold slices_of in *. rewrite filter_cons.
  apply elem_of_cons in Hp as [->|Hp].
  - rewrite decide_True by done. f_equal. by apply slices_of_none.
  - rewrite decide_False; [by apply IH|].
    intros Hid. apply Hq. rewrite Hid. by apply list_elem_of_fmap_2.
Qed.

(** A decision sequence that is a rearrangement of the process list runs
    every process once, for its whole burst time. *)
Lemma rearranged_slices_of ps out p :
  out ≡ₚ ps → NoDup (process_id <$> ps) → p ∈ ps → slices_of p out = [p].
Proof.
  intros Hperm Hnd Hp. apply Permutation_singleton_r.
  rewrite <- (slices_of_unique ps p Hnd Hp). unfold slices_of. by rewrite Hperm.
Qed.

Lemma insert_by_arrival_perm p sorted : insert_by_arrival p sorted ≡ₚ p :: sorted.
Proof.
  induction sorted as [|q sorted IH]; cbn; [done|].
  destruct (before id arrival_time q p); [|done].
  rewrite IH. apply Permutation_swap.
Qed.

Lemma fcfs_perm ps : fcfs ps ≡ₚ ps.
Proof.
  unfold fcfs. induction ps as [|p ps IH]; cbn; [done|].
  by rewrite insert_by_arrival_perm, IH.
Qed.

Lemma run_to_completion_perm rank fuel : ∀ clock pending,
  (length pending ≤ fuel)%nat → NoDup (process_id <$> pending) →
  run_to_completion rank fuel clock pending ≡ₚ pending.
Proof.
  induction fuel as [|fuel IH]; intros clock pending Hlen Hnd.
  - destruct pending; [done|cbn in Hlen; lia].
  - cbn [run_to_completion].
    destruct pending as [|p0 pending']; [done|].
    pose proof (advance_ready id clock (p0 :: pending') ltac:(done)) as Hready.
    destruct (filter _ (p0 :: pending')) as [|r ready] eqn:Hfilter; [done|].
    set (p := best id rank r ready).
    assert (Hp : p ∈ p0 :: pending').
    { pose proof (best_elem id rank r ready) as Hin. rewrite <- Hfilter in Hin.
      by apply list_elem_of_filter in Hin as [_ Hin]. }
    pose proof (remove_id_perm id p (p0 :: pending') Hnd Hp) as Hperm.
    etrans; [|symmetry; exact Hperm]. constructor. apply IH.
    + apply Permutation_length in Hperm. cbn in Hperm, Hlen. cbn. lia.
    + rewrite Hperm in Hnd. cbn in Hnd. by apply NoDup_cons in Hnd as [_ Hnd].
Qed.

End NonPreemptive.

Section Sums.

Local Open Scope Z_scope.

Context {A : Type}.

Implicit Types (f : A → Z) (l : list A).

Lemma sum_by_app f l1 l2 : sum_by f (l1 ++ l2) = sum_by f l1 + sum_by f l2.
Proof. unfold sum_by. induction l1 as [|a l1 IH]; cbn; [done|]. rewrite IH. lia. Qed.

Lemma sum_by_fmap {B : Type} (g : B → A) f (l : list B) :
  sum_by f (g <$> l) = sum_by (f ∘ g) l.
Proof. unfold sum_by. induction l as [|b l IH]; cbn; [done|]. by rewrite IH. Qed.

Lemma sum_by_split f (test : A → bool) l :
  sum_by f (filter (λ a, test a = true) l) + sum_by f (filter (λ a, test a = false) l)
  = sum_by f l.
Proof.
  unfold sum_by. induction l as [|a l IH]; [done|]. rewrite !filter_cons.
  destruct (test a) eqn:Ha.
  - rewrite decide_True, decide_False by done. cbn. lia.
  - rewrite decide_False, decide_True by done. cbn. lia.
Qed.

Lemma sum_by_filter f (P : A → Prop) `{!∀ a, Decision (P a)} l :
  sum_by f (filter P l) = sum_by (λ a, if decide (P a) then f a else 0) l.
Proof.
  unfold sum_by. induction l as [|a l IH]; [done|]. rewrite filter_cons. cbn.
  destruct (decide (P a)); cbn; rewrite IH; lia.
Qed.

Lemma sum_by_nonneg f l : Forall (λ a, 0 ≤ f a) l → 0 ≤ sum_by f l.
Proof. unfold sum_by. induction 1 as [|a l Ha _ IH]; cbn; lia. Qed.

Lemma sum_by_perm f l1 l2 : l1 ≡ₚ l2 → sum_by f l1 = sum_by f l2.
Proof. unfold sum_by. induction 1; cbn; lia. Qed.

Lemma length_split (test : A → bool) l :
  (length (filter (λ a, test a = true) l) + length (filter (λ a, test a = false) l)
   = length l)%nat.
Proof.
  induction l as [|a l IH]; [done|]. rewrite !filter_cons.
  destruct (test a) eqn:Ha.
  - rewrite decide_True, decide_False by done. cbn. lia.
  - rewrite decide_False, decide_True by done. cbn. lia.
Qed.

Lemma Forall_filter_keep (Q P : A → Prop) `{!∀ a, Decision (P a)} l :
  Forall Q l → Forall Q (filter P l).
Proof.
  rewrite !Forall_forall. intros HQ a Ha.
  apply list_elem_of_filter in Ha as [_ Ha]. by apply HQ.
Qed.

End Sums.

Section RoundRobin.

Import SpecLib Metrics.
Local Open Scope Z_scope.

Variable p : Process.

Local Abbreviation owed := (owed p).
Local Abbreviation on_time := (on_time p).

Lemma burst_of_slices (l : list Process) :
  total_burst (slices_of p l) =
    sum_by (λ q, if decide (process_id q = process_id p) then burst_time q else 0) l.
Proof. unfold slices_of. apply (sum_by_filter burst_time). Qed.

Lemma owed_runtime (l : list Process) :
  sum_by owed ((λ q, (q, burst_time q)) <$> l) = total_burst (slices_of p l).
Proof. rewrite sum_by_fmap, burst_of_slices. done. Qed.

Lemma burst_of_split (test : Process → bool) (l : list Process) :
  total_burst (slices_of p (filter (λ q, test q = true) l))
  + total_burst (slices_of p (filter (λ q, test q = false) l))
  = total_burst (slices_of p l).
Proof. rewrite !burst_of_slices. apply sum_by_split. Qed.

Lemma on_time_slices (out : list Process) :
  Forall on_time out → Forall (λ e, arrival_time p ≤ arrival_time e) (slices_of p out).
Proof.
  rewrite !Forall_forall. intros H e He.
  apply list_elem_of_filter in He as [Hid He]. by apply H.
Qed.

Lemma rr_loop_serves (quantum : Z) (fuel : nat) :
  0 < quantum →
  ∀ (clock : Z) (queue : list RuntimeProcess) (future : list Process),
    Forall (λ a, 0 < a.2) queue →
    Forall (λ q, 0 < burst_time q) future →
    Forall (λ a, on_time a.1) queue →
    Forall on_time future →
    Z.of_nat (length future) + sum_by snd queue + total_burst future ≤ Z.of_nat fuel →
    total_burst (slices_of p (rr_loop quantum fuel clock queue future))
      = sum_by owed queue + total_burst (slices_of p future)
    ∧ Forall on_time (rr_loop quantum fuel clock queue future)
    ∧ Forall (λ e, 0 < burst_time e) (rr_loop quantum fuel clock queue future).
Proof.
  intros Hq. induction fuel as [|fuel IH]; intros clock queue future Hrem Hburst Hqt Hft Hfuel.
  - pose proof (sum_by_nonneg snd queue) as Hn1.
    pose proof (sum_by_nonneg burst_time future) as Hn2.
    change (sum_by burst_time future) with (total_burst future) in Hn2.
    destruct queue as [|[q r] queue].
    + destruct future as [|f future]; [done|].
      assert (0 ≤ total_burst (f :: future)).
      { apply Hn2. eapply Forall_impl; [exact Hburst|]. cbn. lia. }
      exfalso. change (sum_by snd []) with 0 in Hfuel. cbn [length] in Hfuel. lia.
    + apply Forall_cons in Hrem as [Hr Hrem]. cbn in Hr.
      assert (0 ≤ sum_by snd queue).
      { apply sum_by_nonneg. eapply Forall_impl; [exact Hrem|]. cbn. lia. }
      assert (0 ≤ total_burst future).
      { apply Hn2. eapply Forall_impl; [exact Hburst|]. cbn. lia. }
      exfalso. change (sum_by snd ((q, r) :: queue)) with (r + sum_by snd queue) in Hfuel.
      lia.
  - cbn [rr_loop]. destruct queue as [|[q remaining] tail].
    + destruct future as [|f fs]; [done|].
      set (clock' := Z.max clock (arrival_time f)).
      set (future := f :: fs) in *.
      destruct (IH clock'
                  ((λ q, (q, burst_time q)) <$> filter (λ q, arrived id clock' q = true) future)
                  (filter (λ q, arrived id clock' q = false) future))
        as (Hsum & Hon & Hpos).
      * apply Forall_fmap, Forall_filter_keep. exact Hburst.
      * by apply Forall_filter_keep.
      * apply Forall_fmap, Forall_filter_keep. exact Hft.
      * by apply Forall_filter_keep.
      * rewrite sum_by_fmap. change (sum_by (snd ∘ _) ?l) with (total_burst l).
        pose proof (sum_by_split burst_time (arrived id clock') future) as Hsplit.
        change (sum_by burst_time ?l) with (total_burst l) in Hsplit.
        assert (length (filter (λ q, arrived id clock' q = false) future) < length future)%nat.
        { apply (length_filter_lt _ _ f); [apply list_elem_of_here|].
          unfold arrived, clock'. cbn. intros Hf. apply Z.leb_gt in Hf. lia. }
        change (sum_by snd []) with 0 in Hfuel. lia.
      * split; [|done]. rewrite Hsum, owed_runtime.
        change (sum_by owed []) with 0. rewrite burst_of_split. lia.
    + apply Forall_cons in Hrem as [Hr Hrem]. cbn in Hr.
      apply Forall_cons in Hqt as [Hq0 Hqt]. cbn in Hq0.
      set (amount := Z.min remaining quantum).
      set (clock' := clock + amount).
      set (requeued := if 0 <? remaining - amount then [(q, remaining - amount)] else []).
      assert (Hamount : 0 < amount ≤ remaining) by (unfold amount; lia).
      assert (Hreq_rem : sum_by snd requeued = remaining - amount).
      { unfold requeued. destruct (0 <? remaining - amount) eqn:Hc; cbn.
        - lia.
        - apply Z.ltb_ge in Hc. lia. }
      assert (Hreq_owed : sum_by owed requeued = owed (q, remaining - amount)).
      { unfold requeued. destruct (0 <? remaining - amount) eqn:Hc; cbn.
        - lia.
        - apply Z.ltb_ge in Hc. unfold owed. cbn.
          destruct (decide (process_id q = process_id p)); lia. }
      destruct (IH clock'
                  (tail ++ ((λ q, (q, burst_time q)) <$>
                              filter (λ q, arrived id clock' q = true) future) ++ requeued)
                  (filter (λ q, arrived id clock' q = false) future))
        as (Hsum & Hon & Hpos).
      * apply Forall_app. split; [done|]. apply Forall_app. split.
        -- apply Forall_fmap, Forall_filter_keep. exact Hburst.
        -- unfold requeued. destruct (0 <? remaining - amount) eqn:Hc; [|done].
           apply Z.ltb_lt in Hc. by constructor.
      * by apply Forall_filter_keep.
      * apply Forall_app. split; [done|]. apply Forall_app. split.
        -- apply Forall_fmap, Forall_filter_keep. exact Hft.
        -- unfold requeued. destruct (0 <? remaining - amount); by repeat constructor.
      * by apply Forall_filter_keep.
      * rewrite !sum_by_app, sum_by_fmap, Hreq_rem.
        change (sum_by (snd ∘ _) ?l) with (total_burst l).
        pose proof (sum_by_split burst_time (arrived id clock') future) as Hsplit.
        change (sum_by burst_time ?l) with (total_burst l) in Hsplit.
        pose proof (length_split (arrived id clock') future) as Hlen.
        change (sum_by snd ((q, remaining) :: tail))
          with (remaining + sum_by snd tail) in Hfuel.
        lia.
      * split; [|split].
        -- rewrite slices_of_cons. cbn [with_burst_time process_id].
           rewrite !sum_by_app, owed_runtime, Hreq_owed in Hsum.
           pose proof (burst_of_split (arrived id clock') future) as Hsplit.
           change (sum_by owed ((q, remaining) :: tail))
             with (owed (q, remaining) + sum_by owed tail).
           assert (Ho : ∀ r, owed (q, r) =
                          if decide (process_id q = process_id p) then r else 0)
             by reflexivity.
           rewrite Ho in Hsum |- *.
           destruct (decide (process_id q = process_id p)).
           ++ change (total_burst (?e :: ?l)) with (burst_time e + total_burst l).
              cbn [with_burst_time burst_time]. lia.
           ++ lia.
        -- constructor; [exact Hq0|done].
        -- constructor; [cbn; lia|done].
Qed.

End RoundRobin.

Section Preemptive.

Import SpecLib Metrics.
Local Open Scope Z_scope.

Variable p : Process.

Implicit Types (q s : Process) (pool : list RuntimeProcess) (out : list Process).

Lemma segment_id q start amount stamp : process_id (segment q start amount stamp) = process_id q.
Proof. by destruct stamp. Qed.

Lemma record_segment_cons q start amount stamp s out :
  record_segment q start amount stamp (s :: out) =
    match out with
    | [] => if process_id s =? process_id q
            then [with_burst_time s (burst_time s + amount)]
            else [s; segment q start amount stamp]
    | _ :: _ => s :: record_segment q start amount stamp out
    end.
Proof. by destruct out. Qed.

Lemma record_segment_amount q start amount stamp out :
  total_burst (slices_of p (record_segment q start amount stamp out))
  = total_burst (slices_of p out)
    + (if decide (process_id q = process_id p) then amount else 0).
Proof.
  induction out as [|s out IH].
  - cbn [record_segment]. fold (segment q start amount stamp).
    rewrite slices_of_cons, segment_id.
    destruct (decide (process_id q = process_id p)); cbn; lia.
  - rewrite record_segment_cons. destruct out as [|s' out].
    + destruct (process_id s =? process_id q) eqn:Hid.
      * apply Z.eqb_eq in Hid. rewrite !slices_of_cons. cbn [with_burst_time process_id].
        rewrite Hid. destruct (decide (process_id q = process_id p)); cbn; lia.
      * rewrite !slices_of_cons, segment_id.
        destruct (decide (process_id s = process_id p)),
                 (decide (process_id q = process_id p)); cbn; lia.
    + rewrite slices_of_cons, (slices_of_cons p s (s' :: out)).
      destruct (decide (process_id s = process_id p)).
      * change (total_burst (?e :: ?l)) with (burst_time e + total_burst l).
        rewrite IH. lia.
      * apply IH.
Qed.

Lemma record_segment_Forall (Q : Process → Prop) q start amount stamp out :
  Forall Q out →
  Q (segment q start amount stamp) →
  (∀ s, Q s → process_id s = process_id q → Q (with_burst_time s (burst_time s + amount))) →
  Forall Q (record_segment q start amount stamp out).
Proof.
  intros Hout Hseg Hmerge. induction out as [|s out IH].
  - by constructor.
  - apply Forall_cons in Hout as [Hs Hout]. rewrite record_segment_cons.
    destruct out as [|s' out].
    + destruct (process_id s =? process_id q) eqn:Hid.
      * apply Z.eqb_eq in Hid. constructor; [by apply Hmerge|done].
      * by repeat constructor.
    + constructor; [done|by apply IH].
Qed.

Lemma clock_of_last_cons_cons clock clock' s s' out :
  clock_of_last clock (s :: s' :: out) = clock_of_last clock' (s' :: out).
Proof.
  unfold clock_of_last. rewrite last_cons_cons.
  destruct (last (s' :: out)) eqn:Hlast; [done|]. by apply last_None in Hlast.
Qed.

Lemma record_segment_ordered q start amount out : ∀ clock,
  0 ≤ amount →
  ordered_from clock out → clock_of_last clock out ≤ start →
  ordered_from clock (record_segment q start amount true out)
  ∧ clock_of_last clock (record_segment q start amount true out) ≤ start + amount.
Proof.
  intros clock Hamount. revert clock.
  induction out as [|s out IH]; intros clock Hord Hlast.
  - cbn. unfold clock_of_last in *. cbn in *. lia.
  - rewrite record_segment_cons. destruct Hord as [Hs Hord]. destruct out as [|s' out].
    + unfold clock_of_last in Hlast. cbn in Hlast.
      destruct (process_id s =? process_id q); unfold clock_of_last; cbn; lia.
    + rewrite (clock_of_last_cons_cons _ (arrival_time s + burst_time s)) in Hlast.
      destruct (IH _ Hord Hlast) as [Hord' Hlast'].
      split; [by split|].
      destruct (record_segment q start amount true (s' :: out)) as [|s2 out2] eqn:Hrec.
      * rewrite record_segment_cons in Hrec.
        destruct out; [destruct (process_id s' =? process_id q)|]; discriminate Hrec.
      * by rewrite (clock_of_last_cons_cons _ (arrival_time s + burst_time s)).
Qed.

(** Updating the one entry of a process in a pool of distinct processes. *)
Lemma set_remaining_split q remaining r' pool :
  NoDup (process_id ∘ fst <$> pool) → (q, remaining) ∈ pool →
  ∃ l1 l2, pool = l1 ++ (q, remaining) :: l2
           ∧ set_remaining (process_id q) r' pool =
               l1 ++ (if 0 <? r' then [(q, r')] else []) ++ l2.
Proof.
  induction pool as [|[q0 r0] pool IH]; intros Hnd Hin; [by apply elem_of_nil in Hin|].
  cbn in Hnd. apply NoDup_cons in Hnd as [Hq0 Hnd]. cbn [set_remaining].
  destruct (process_id q0 =? process_id q) eqn:Hid.
  - apply Z.eqb_eq in Hid. apply elem_of_cons in Hin as [[= <- <-]|Hin].
    + exists [], pool. split; [done|]. by destruct (0 <? r').
    + exfalso. apply Hq0. rewrite Hid.
      by apply (list_elem_of_fmap_2 (process_id ∘ fst)) in Hin.
  - apply Z.eqb_neq in Hid. apply elem_of_cons in Hin as [[= <- <-]|Hin]; [done|].
    destruct (IH Hnd Hin) as (l1 & l2 & -> & ->).
    by exists ((q0, r0) :: l1), l2.
Qed.

Lemma preemptive_loop_serves (rank : RuntimeProcess → Z) (stamp : bool) (fuel : nat) :
  ∀ (clock : Z) (pool : list RuntimeProcess) (out : list Process),
    NoDup (process_id ∘ fst <$> pool) →
    Forall (λ a, 0 < a.2) pool →
    Forall (λ a, on_time p a.1) pool →
    Forall (on_time p) out →
    Forall (λ e, 0 < burst_time e) out →
    (stamp = true → ordered_from 0 out ∧ clock_of_last 0 out ≤ clock) →
    sum_by snd pool ≤ Z.of_nat fuel →
    total_burst (slices_of p (preemptive_loop rank stamp fuel clock pool out))
      = total_burst (slices_of p out) + sum_by (owed p) pool
    ∧ Forall (on_time p) (preemptive_loop rank stamp fuel clock pool out)
    ∧ Forall (λ e, 0 < burst_time e) (preemptive_loop rank stamp fuel clock pool out)
    ∧ (stamp = true → ordered_from 0 (preemptive_loop rank stamp fuel clock pool out)).
Proof.
  induction fuel as [|fuel IH]; intros clock pool out Hnd Hrem Hpool Hon Hpos Hord Hfuel.
  - destruct pool as [|[q r] pool].
    + cbn [preemptive_loop]. change (sum_by (owed p) []) with 0.
      split; [lia|]. split; [done|]. split; [done|]. intros Hs. by apply Hord.
    + apply Forall_cons in Hrem as [Hr Hrem]. cbn in Hr.
      assert (0 ≤ sum_by snd pool).
      { apply sum_by_nonneg. eapply Forall_impl; [exact Hrem|]. cbn. lia. }
      exfalso. change (sum_by snd ((q, r) :: pool)) with (r + sum_by snd pool) in Hfuel. lia.
  - cbn [preemptive_loop].
    destruct pool as [|a0 pool0].
    { rewrite filter_nil. change (sum_by (owed p) []) with 0.
      split; [lia|]. split; [done|]. split; [done|]. intros Hs. by apply Hord. }
    set (pool := a0 :: pool0) in *.
    pose proof (advance_ready fst clock pool ltac:(done)) as Hready.
    pose proof (advance_ge fst clock pool) as Hadv.
    set (clock' := advance fst clock pool) in *.
    destruct (filter _ pool) as [|r ready] eqn:Hfilter; [done|].
    pose proof (best_elem fst rank r ready) as Hbest.
    destruct (best fst rank r ready) as [q remaining].
    rewrite <- Hfilter in Hbest. apply list_elem_of_filter in Hbest as [Harr Hin].
    unfold arrived in Harr. cbn in Harr. apply Z.leb_le in Harr.
    assert (Hq_rem : 0 < remaining).
    { rewrite Forall_forall in Hrem. by apply (Hrem _ Hin). }
    assert (Hq_on : on_time p q).
    { rewrite Forall_forall in Hpool. by apply (Hpool _ Hin). }
    set (amount := match next_arrival fst clock' pool with
                   | Some t => Z.min remaining (t - clock')
                   | None => remaining
                   end).
    assert (Hamount : 0 < amount ≤ remaining).
    { unfold amount. destruct (next_arrival fst clock' pool) as [t|] eqn:Hnext; [|lia].
      apply next_arrival_Some in Hnext as [Ht _]. lia. }
    destruct (set_remaining_split q remaining (remaining - amount) pool Hnd Hin)
      as (l1 & l2 & Hpool_eq & Hset).
    rewrite Hset. rewrite Hpool_eq in Hnd, Hrem, Hpool, Hfuel.
    assert (Hreq : ∀ f : RuntimeProcess → Z, f (q, 0) = 0 →
              sum_by f (if 0 <? remaining - amount then [(q, remaining - amount)] else [])
              = f (q, remaining - amount)).
    { intros f Hf. destruct (0 <? remaining - amount) eqn:Hc; cbn; [lia|].
      apply Z.ltb_ge in Hc. replace (remaining - amount) with 0 by lia. lia. }
    destruct (IH (clock' + amount)
                (l1 ++ (if 0 <? remaining - amount then [(q, remaining - amount)] else []) ++ l2)
                (record_segment q clock' amount stamp out))
      as (Hsum & Hon' & Hpos' & Hord').
    + rewrite fmap_app in Hnd. rewrite 2!fmap_app. cbn in Hnd.
      apply NoDup_app in Hnd as (Hnd1 & Hnd12 & Hnd2).
      apply NoDup_cons in Hnd2 as [Hq2 Hnd2].
      apply NoDup_app. split; [done|]. split.
      * intros x Hx Hx'. apply (Hnd12 x Hx).
        apply elem_of_app in Hx' as [Hx'|Hx']; [|by right].
        destruct (0 <? remaining - amount); [|by apply elem_of_nil in Hx'].
        cbn in Hx'. apply list_elem_of_singleton in Hx' as ->. left.
      * destruct (0 <? remaining - amount); cbn; [by apply NoDup_cons|done].
    + apply Forall_app in Hrem as [Hrem1 Hrem2]. apply Forall_cons in Hrem2 as [_ Hrem2].
      apply Forall_app. split; [done|]. apply Forall_app. split; [|done].
      destruct (0 <? remaining - amount) eqn:Hc; [|done].
      apply Z.ltb_lt in Hc. by constructor.
    + apply Forall_app in Hpool as [Hp1 Hp2]. apply Forall_cons in Hp2 as [_ Hp2].
      apply Forall_app. split; [done|]. apply Forall_app. split; [|done].
      destruct (0 <? remaining - amount); by repeat constructor.
    + apply record_segment_Forall; [done| |].
      * unfold on_time. rewrite segment_id. intros Hid. specialize (Hq_on Hid).
        destruct stamp; cbn; lia.
      * unfold on_time. cbn. by intros s Hs _.
    + apply record_segment_Forall; [done| |].
      * destruct stamp; cbn; lia.
      * cbn. intros s Hs _. lia.
    + intros ->. destruct (Hord eq_refl) as [Ho Hl].
      destruct (record_segment_ordered q clock' amount out 0) as [Ho' Hl']; [lia|done|lia|].
      done.
    + rewrite !sum_by_app, Hreq by done.
      rewrite !sum_by_app in Hfuel.
      change (sum_by snd ((q, remaining) :: l2)) with (remaining + sum_by snd l2) in Hfuel.
      cbn [snd]. lia.
    + split; [|done]. rewrite Hsum, record_segment_amount.
      assert (Ho : ∀ r, owed p (q, r) =
                     if decide (process_id q = process_id p) then r else 0)
        by reflexivity.
      rewrite !sum_by_app, Hreq by (rewrite Ho; by destruct (decide _)).
      replace (sum_by (owed p) pool)
        with (sum_by (owed p) l1 + (owed p (q, remaining) + sum_by (owed p) l2))
        by (by rewrite Hpool_eq, sum_by_app).
      rewrite !Ho. destruct (decide (process_id q = process_id p)); lia.
Qed.

End Preemptive.

Section Served.

Import SpecLib Metrics.
Local Open Scope Z_scope.

Implicit Types (p q : Process) (ps out : list Process).

Lemma same_id_same_process ps p q :
  NoDup (process_id <$> ps) → p ∈ ps → q ∈ ps → process_id q = process_id p → q = p.
Proof.
  intros Hnd Hp Hq Hid.
  assert (Hin : q ∈ slices_of p ps) by (by apply list_elem_of_filter).
  rewrite (slices_of_unique ps p Hnd Hp) in Hin. by apply list_elem_of_singleton in Hin.
Qed.

Lemma valid_input_on_time ps p :
  valid_input ps → p ∈ ps → Forall (on_time p) ps.
Proof.
  intros [Hnd _] Hp. apply Forall_forall. intros q Hq Hid.
  by rewrite (same_id_same_process ps p q Hnd Hp Hq Hid).
Qed.

Lemma valid_input_positive ps : valid_input ps → Forall (λ q, 0 < burst_time q) ps.
Proof. intros [_ Hv]. eapply Forall_impl; [exact Hv|]. cbn. lia. Qed.

Lemma positive_nonnegative out :
  Forall (λ e, 0 < burst_time e) out → nonnegative_amounts out.
Proof. intros H. eapply Forall_impl; [exact H|]. cbn. lia. Qed.

Lemma rearranged_serves ps out : valid_input ps → out ≡ₚ ps → serves_all ps out.
Proof.
  intros Hv Hperm. split.
  - apply positive_nonnegative. rewrite Hperm. by apply valid_input_positive.
  - intros p Hp. pose proof Hv as [Hnd Hpos]. unfold served.
    rewrite (rearranged_slices_of ps out p Hperm Hnd Hp).
    split; [done|]. split; [cbn; lia|]. by repeat constructor.
Qed.

Lemma conserved_serves ps out :
  valid_input ps →
  Forall (λ e, 0 < burst_time e) out →
  (∀ p, p ∈ ps → total_burst (slices_of p out) = burst_time p ∧ Forall (on_time p) out) →
  serves_all ps out.
Proof.
  intros Hv Hpos Hall. split; [by apply positive_nonnegative|].
  intros p Hp. destruct (Hall p Hp) as [Hsum Hon].
  pose proof (valid_input_positive ps Hv) as Hb. rewrite Forall_forall in Hb.
  specialize (Hb p Hp). cbn in Hb.
  split; [|split; [done|by apply on_time_slices]].
  intros Hnil. rewrite Hnil in Hsum. cbn in Hsum. lia.
Qed.

Lemma fcfs_serves ps : valid_input ps → serves_all ps (fcfs ps).
Proof. intros Hv. apply rearranged_serves; [done|apply fcfs_perm]. Qed.

Lemma sjf_serves ps : valid_input ps → serves_all ps (sjf ps).
Proof.
  intros Hv. apply rearranged_serves; [done|].
  apply run_to_completion_perm; [done|by destruct Hv].
Qed.

Lemma npps_serves ps : valid_input ps → serves_all ps (npps ps).
Proof.
  intros Hv. apply rearranged_serves; [done|].
  apply run_to_completion_perm; [done|by destruct Hv].
Qed.

Lemma total_burst_nonneg ps : valid_input ps → 0 ≤ total_burst ps.
Proof.
  intros Hv. apply (sum_by_nonneg burst_time).
  eapply Forall_impl; [exact (valid_input_positive ps Hv)|]. cbn. lia.
Qed.

Lemma rr_serves ps quantum : valid_input ps → 0 < quantum → serves_all ps (rr ps quantum).
Proof.
  intros Hv Hq. unfold rr. rewrite (proj2 (Z.leb_gt quantum 0) Hq).
  destruct ps as [|p0 ps'] eqn:Hps.
  { cbn. split; [constructor|]. intros p Hp. by apply elem_of_nil in Hp. }
  rewrite <- Hps in *. assert (Hp0 : p0 ∈ ps) by (rewrite Hps; left).
  pose proof (fcfs_perm ps) as Hperm.
  assert (Hfuel : Z.of_nat (length (fcfs ps)) + sum_by snd ([] : list (Process * Z))
                  + total_burst (fcfs ps)
                  ≤ Z.of_nat (length ps + Z.to_nat (total_burst ps))).
  { rewrite Hperm at 1. rewrite (sum_by_perm burst_time _ _ Hperm : total_burst _ = _).
    pose proof (total_burst_nonneg ps Hv). change (sum_by snd []) with 0.
    change (sum_by burst_time ps) with (total_burst ps). lia. }
  assert (Hpos : Forall (λ q, 0 < burst_time q) (fcfs ps)).
  { rewrite Hperm. by apply valid_input_positive. }
  assert (Hon : ∀ p, p ∈ ps → Forall (on_time p) (fcfs ps)).
  { intros p Hp. rewrite Hperm. by apply valid_input_on_time. }
  apply conserved_serves; [done| |].
  - by destruct (rr_loop_serves p0 quantum (length ps + Z.to_nat (total_burst ps)) Hq 0 []
                   (fcfs ps) ltac:(constructor) Hpos ltac:(constructor) (Hon p0 Hp0) Hfuel)
      as (_ & _ & Hp).
  - intros p Hp.
    destruct (rr_loop_serves p quantum (length ps + Z.to_nat (total_burst ps)) Hq 0 []
                (fcfs ps) ltac:(constructor) Hpos ltac:(constructor) (Hon p Hp) Hfuel)
      as (Hsum & Hon' & _).
    split; [|done]. rewrite Hsum. change (sum_by (owed p) []) with 0.
    destruct Hv as [Hnd _]. rewrite (rearranged_slices_of ps (fcfs ps) p Hperm Hnd Hp).
    cbn. lia.
Qed.

Lemma runtime_pool ps p :
  valid_input ps → p ∈ ps →
  NoDup (process_id ∘ fst <$> runtime ps)
  ∧ Forall (λ a, 0 < a.2) (runtime ps)
  ∧ Forall (λ a, on_time p a.1) (runtime ps)
  ∧ sum_by snd (runtime ps) = total_burst ps
  ∧ sum_by (owed p) (runtime ps) = burst_time p.
Proof.
  intros Hv Hp. pose proof Hv as [Hnd _]. unfold runtime.
  split; [|split; [|split; [|split]]].
  - by rewrite <- list_fmap_compose.
  - apply Forall_fmap. exact (valid_input_positive ps Hv).
  - apply Forall_fmap. exact (valid_input_on_time ps p Hv Hp).
  - by rewrite sum_by_fmap.
  - rewrite owed_runtime, (slices_of_unique ps p Hnd Hp). cbn. lia.
Qed.

Lemma preemptive_serves rank stamp ps :
  valid_input ps →
  serves_all ps (preemptive_loop rank stamp (Z.to_nat (total_burst ps)) 0 (runtime ps) [])
  ∧ (stamp = true →
     ordered_from 0 (preemptive_loop rank stamp (Z.to_nat (total_burst ps)) 0 (runtime ps) [])).
Proof.
  intros Hv. pose proof (total_burst_nonneg ps Hv) as Hnn.
  destruct ps as [|p0 ps'] eqn:Hps.
  { cbn. split; [|done]. split; [constructor|]. intros p Hp. by apply elem_of_nil in Hp. }
  rewrite <- Hps in *. assert (Hp0 : p0 ∈ ps) by (rewrite Hps; left).
  assert (Hstart : stamp = true → ordered_from 0 [] ∧ clock_of_last 0 [] ≤ 0).
  { intros _. split; [done|]. unfold clock_of_last. cbn. lia. }
  assert (Hloop : ∀ p, p ∈ ps →
    total_burst (slices_of p (preemptive_loop rank stamp (Z.to_nat (total_burst ps)) 0
                                (runtime ps) [])) = burst_time p
    ∧ Forall (on_time p) (preemptive_loop rank stamp (Z.to_nat (total_burst ps)) 0
                            (runtime ps) [])
    ∧ Forall (λ e, 0 < burst_time e)
             (preemptive_loop rank stamp (Z.to_nat (total_burst ps)) 0 (runtime ps) [])
    ∧ (stamp = true →
       ordered_from 0 (preemptive_loop rank stamp (Z.to_nat (total_burst ps)) 0
                         (runtime ps) []))).
  { intros p Hp.
    destruct (runtime_pool ps p Hv Hp) as (Hnd & Hrem & Hon & Hsum & Howed).
    assert (Hfuel : sum_by snd (runtime ps) ≤ Z.of_nat (Z.to_nat (total_burst ps)))
      by (rewrite Hsum; lia).
    destruct (preemptive_loop_serves p rank stamp (Z.to_nat (total_burst ps)) 0
                (runtime ps) [] Hnd Hrem Hon ltac:(constructor) ltac:(constructor)
                Hstart Hfuel) as (Hres & Hrest).
    split; [|exact Hrest]. rewrite Hres, Howed. cbn. lia. }
  split.
  - apply conserved_serves; [done| |].
    + by destruct (Hloop p0 Hp0) as (_ & _ & Hpos & _).
    + intros p Hp. by destruct (Hloop p Hp) as (Hsum & Hon & _).
  - by destruct (Hloop p0 Hp0) as (_ & _ & _ & Hord).
Qed.

End Served.

(** For a process that the strategy served (it runs at least once, its run
    amounts add up to its burst time, none is placed before it arrives) in a
    decision sequence whose run amounts are not negative (and, under
    preemptive priority, whose own stamped output is ordered; under the
    other algorithms, whose walk is exact), the metrics are defined, the
    waiting time is at least 0 and the turnaround time is at least the burst
    time. *)
Lemma served_metrics (lib : Lib) (values : FormValues) (w w1 : World)
    (raw : list loc) (p : Process) :
  processes w ≠ [] →
  run_strategy lib values (processes w) w = Some (raw, w1) →
  live (heap w1) raw →
  (algorithm values ≠ "PPS" → exact_from 0 (deref_all (heap w1) raw)) →
  Metrics.served p (deref_all (heap w1) raw) →
  nonnegative_amounts (deref_all (heap w1) raw) →
  (algorithm values = "PPS" → ordered_from 0 (deref_all (heap w1) raw)) →
  ∃ (w' : World) (m : Metrics.ProcessMetrics),
    onSubmit lib values w = Some (tt, w')
    ∧ Metrics.process_metrics p (displayed w') = Some m
    ∧ (0 ≤ Metrics.waiting_time m)%Z
    ∧ (burst_time p ≤ Metrics.turnaround_time m)%Z.
Proof.
  intros Hne Hrun Hlive Hexact (Hsome & Hsum & Harr) Hnn Hpps.
  assert (Hgoal : ∀ tl,
    nonnegative_amounts tl → ordered_from 0 tl →
    total_burst (Metrics.slices_of p tl) = burst_time p →
    Metrics.slices_of p tl ≠ [] →
    Forall (λ s, (arrival_time p ≤ arrival_time s)%Z) (Metrics.slices_of p tl) →
    ∃ m, Metrics.process_metrics p tl = Some m
         ∧ (0 ≤ Metrics.waiting_time m)%Z ∧ (burst_time p ≤ Metrics.turnaround_time m)%Z).
  { intros tl Hnn' Hord Hsum' Hsome' Harr'.
    destruct (completion_after_service p tl 0 (arrival_time p) Hnn' Hord Harr' Hsome')
      as (c & Hc & Hle).
    unfold Metrics.process_metrics. rewrite Hc. cbn.
    eexists. split; [reflexivity|]. cbn. lia. }
  destruct (algorithm values =? "PPS") eqn:Halg.
  - apply String.eqb_eq in Halg. specialize (Hpps Halg).
    rewrite (onSubmit_runs lib values w raw w1 Hne Hrun Hlive).
    rewrite Halg. cbn [String.eqb Ascii.eqb Bool.eqb].
    destruct (Hgoal (deref_all (heap w1) raw)) as (m & Hm); [done..|].
    by eexists _, m.
  - destruct (onSubmit_displays_stamped lib values w w1 raw Hne Halg Hrun Hlive)
      as (w' & Hw' & Hshown & _).
    { apply Hexact. by apply String.eqb_neq. }
    destruct (slices_of_stamp_from p (deref_all (heap w1) raw) 0) as (Hsum' & Hsome' & Harr').
    destruct (Hgoal (stamp_from 0 (deref_all (heap w1) raw))) as (m & Hm).
    + by apply stamp_from_amounts.
    + apply stamp_from_ordered.
    + by rewrite Hsum'.
    + by apply Hsome'.
    + by apply Harr'.
    + exists w', m. by rewrite Hshown.
Qed.

(** The same for a strategy that works on a copy and returns new records. *)
Lemma served_after_copy (values : FormValues) (w w1 : World) (raw : list loc)
    (f : list Process → list Process) (name : string) (q : option Z) (p : Process) :
  processes w ≠ [] →
  run_strategy SpecLib.lib values (processes w) w = Some (raw, w1) →
  (algorithm values ≠ "PPS" → exact_from 0 (deref_all (heap w1) raw)) →
  run_strategy SpecLib.lib values (processes w) w =
    call name (processes w) q (SpecLib.on_copy f (processes w)) w →
  Metrics.served p (f (deref_all (heap w) (processes w))) →
  nonnegative_amounts (f (deref_all (heap w) (processes w))) →
  (algorithm values = "PPS" → ordered_from 0 (f (deref_all (heap w) (processes w)))) →
  ∃ (w' : World) (m : Metrics.ProcessMetrics),
    onSubmit SpecLib.lib values w = Some (tt, w')
    ∧ Metrics.process_metrics p (displayed w') = Some m
    ∧ (0 ≤ Metrics.waiting_time m)%Z
    ∧ (burst_time p ≤ Metrics.turnaround_time m)%Z.
Proof.
  intros Hne Hrun Hexact Hcall Hserved Hnn Hord.
  rewrite Hrun in Hcall. unfold call, SpecLib.on_copy in Hcall.
  injection Hcall as -> ->. cbn [heap] in Hexact. rewrite deref_all_fresh in Hexact.
  apply (served_metrics SpecLib.lib values w _ _ p Hne Hrun); cbn [heap].
  - apply live_fresh.
  - by rewrite deref_all_fresh.
  - by rewrite deref_all_fresh.
  - by rewrite deref_all_fresh.
  - by rewrite deref_all_fresh.
Qed.

(** ** Runs of the modelled library *)

Section ModelledRuns.

Implicit Types (w : World) (values : FormValues).

(** Under the modelled library the switch computes a function of the
    process list and stores its result in new records; the caller's array and
    every record of the store stay as they are. *)
Lemma SpecLib_run values :
  ∃ (f : list Process → list Process) (es : list loc → list Event),
    ∀ w, run_strategy SpecLib.lib values (processes w) w =
           Some (seq (length (heap w)) (length (f (process_list w))),
                 {| heap := heap w ++ f (process_list w); processes := processes w;
                    timeline := timeline w; trace := trace w ++ es (processes w) |}).
Proof.
  unfold run_strategy.
  destruct (algorithm values =? "fCFS");
    [|destruct (algorithm values =? "SJF");
      [|destruct (algorithm values =? "RR");
        [|destruct (algorithm values =? "SRTF");
          [|destruct (algorithm values =? "NPPS");
            [|destruct (algorithm values =? "PPS")]]]]].
  7: { exists (λ _, []), (λ _, []). intros w. unfold mret, M_ret. cbn.
       rewrite !app_nil_r. by destruct w. }
  - by exists SpecLib.fcfs, (λ ps, [Invoke "fCFS" ps None]).
  - by exists SpecLib.sjf, (λ ps, [Invoke "SJF" ps None]).
  - by exists (λ vs, SpecLib.rr vs (default 0%Z (quantum values))),
              (λ ps, [Invoke "RR" ps (Some (default 0%Z (quantum values)))]).
  - by exists SpecLib.srtf, (λ ps, [Invoke "SRTF" ps None]).
  - by exists SpecLib.npps, (λ ps, [Invoke "NPPS" ps None]).
  - by exists SpecLib.pps, (λ ps, [Invoke "PPS" ps None]).
Qed.

(** So does the whole handler: the timeline it leaves on display is a
    function of the process list. *)
Lemma SpecLib_onSubmit values :
  ∃ f : list Process → list Process,
    ∀ w, processes w ≠ [] →
      ∃ w' k, onSubmit SpecLib.lib values w = Some (tt, w')
              ∧ processes w' = processes w
              ∧ heap w' = heap w ++ k
              ∧ displayed w' = f (process_list w).
Proof.
  destruct (SpecLib_run values) as (f & es & Hrun).
  exists (λ vs, if algorithm values =? "PPS" then f vs else copies_from 0 (f vs)).
  intros w Hne. specialize (Hrun w).
  pose proof (live_fresh (heap w) (f (process_list w))) as Hlive.
  destruct (algorithm values =? "PPS") eqn:Halg.
  - rewrite (onSubmit_runs SpecLib.lib values w _ _ Hne Hrun Hlive), Halg.
    eexists _, (f (process_list w)). split; [reflexivity|].
    unfold displayed. cbn [heap processes timeline]. by rewrite deref_all_fresh.
  - destruct (onSubmit_displays_copies SpecLib.lib values w _ _ Hne Halg Hrun Hlive)
      as (w' & Hw' & Hshown & Hheap & Hps & _).
    cbn [heap processes] in Hshown, Hheap, Hps. rewrite deref_all_fresh in Hshown, Hheap.
    exists w', (f (process_list w) ++ copies_from 0 (f (process_list w))).
    by rewrite app_assoc.
Qed.

(** What a run hands to the presentation components is a function of the
    process list alone. *)
Lemma SpecLib_outcome values :
  ∃ g : list Process → list Process * option Metrics.Summary,
    ∀ w, live (heap w) (processes w) → processes w ≠ [] →
         outcome (onSubmit SpecLib.lib values w) = Some (g (process_list w)).
Proof.
  destruct (SpecLib_onSubmit values) as (f & Hf).
  exists (λ vs, (f vs, Metrics.summary vs (f vs))).
  intros w Hlive Hne. destruct (Hf w Hne) as (w' & k & -> & Hps & Hheap & Hshown).
  unfold outcome. cbn. rewrite Hshown, Hheap, Hps.
  unfold process_list. by rewrite deref_all_app.
Qed.

Lemma same_input_nonempty (wa wb : World) :
  same_input wa wb → processes wa ≠ [] → processes wb ≠ [].
Proof.
  intros (Hla & Hlb & Heq) Hne Hnil. apply Hne.
  apply (f_equal length) in Heq. unfold process_list in Heq.
  rewrite !deref_all_length, Hnil in Heq by done. by destruct (processes wa).
Qed.

End ModelledRuns.

(** ** The modelled library on the scenarios of the specification *)

Section Scenarios.

Import Sample.

(** FCFS, P1(0,5) P2(1,3) P3(2,1): order P1, P2, P3 with starts 0, 5, 8. *)
Example scenario_fcfs :
  starts (onSubmit SpecLib.lib (choose "fCFS") (page [proc 1 0 5; proc 2 1 3; proc 3 2 1]))
  = Some [(1, 0, 5); (2, 5, 3); (3, 8, 1)]%Z.
Proof. reflexivity. Qed.

(** SJF, same input: order P1, P3, P2 with starts 0, 5, 6. *)
Example scenario_sjf :
  starts (onSubmit SpecLib.lib (choose "SJF") (page [proc 1 0 5; proc 2 1 3; proc 3 2 1]))
  = Some [(1, 0, 5); (3, 5, 1); (2, 6, 3)]%Z.
Proof. reflexivity. Qed.

(** Round robin, quantum 2, P1(0,5) P2(0,3): P1[0-2] P2[2-4] P1[4-6] P2[6-7]
    P1[7-8]; waiting P1 = 3, P2 = 4. *)
Example scenario_rr :
  starts (onSubmit SpecLib.lib {| algorithm := "RR"; quantum := Some 2%Z |}
            (page [proc 1 0 5; proc 2 0 3]))
  = Some [(1, 0, 2); (2, 2, 2); (1, 4, 2); (2, 6, 1); (1, 7, 1)]%Z
  ∧ waiting (onSubmit SpecLib.lib {| algorithm := "RR"; quantum := Some 2%Z |}
               (page [proc 1 0 5; proc 2 0 3]))
    = Some [3; 4]%Z.
Proof. split; reflexivity. Qed.

(** Preemptive priority, P1(0,4,prio 2) P2(2,2,prio 1): P1 runs 0-2, P2 runs
    2-4, P1 resumes 4-6; waiting P1 = 2, P2 = 0. *)
Example scenario_pps :
  starts (onSubmit SpecLib.lib (choose "PPS")
            (page [proc_with_priority 1 0 4 2; proc_with_priority 2 2 2 1]))
  = Some [(1, 0, 2); (2, 2, 2); (1, 4, 2)]%Z
  ∧ waiting (onSubmit SpecLib.lib (choose "PPS")
               (page [proc_with_priority 1 0 4 2; proc_with_priority 2 2 2 1]))
    = Some [2; 0]%Z.
Proof. split; reflexivity. Qed.

(** Shortest remaining time, P1(0,5) P2(1,3) P3(2,1): both arrivals preempt. *)
Example scenario_srtf :
  starts (onSubmit SpecLib.lib (choose "SRTF") (page [proc 1 0 5; proc 2 1 3; proc 3 2 1]))
  = Some [(1, 0, 1); (2, 1, 1); (3, 2, 1); (2, 3, 2); (1, 5, 4)]%Z.
Proof. reflexivity. Qed.

(** Beyond 2^53 the sums of the second loop round.  FCFS on P1(0, 2^53),
    P2(0,1), P3(0,1): the clock stays at 2^53 after P2, so P3 starts there
    too. *)
Example scenario_beyond_safe_integers :
  starts (onSubmit SpecLib.lib (choose "fCFS")
            (page [proc 1 0 9007199254740992; proc 2 0 1; proc 3 0 1]))
  = Some [(1, 0, 9007199254740992); (2, 9007199254740992, 1); (3, 9007199254740992, 1)]%Z.
Proof. reflexivity. Qed.

(** The array handed to a strategy is the [processes] state array itself:
    what a strategy that works in place does to it and to its records shows
    on the page afterwards. *)
Example scenario_in_place :
  ∃ w', onSubmit in_place_lib (choose "fCFS") (page [proc 1 0 5; proc 2 1 3]) = Some (tt, w')
        ∧ processes w' = [1; 0]
        ∧ process_list w' = [proc 2 1 0; proc 1 0 0].
Proof. eexists. split; [vm_compute; reflexivity|]. split; reflexivity. Qed.

End Scenarios.

(** * Properties of the handler *)

(** C1 (as the code has it): the timeline has exactly one slice per entry of
    the decision sequence, so no idle slice is ever inserted.  When the run
    amounts are not negative (and, under preemptive priority, the strategy's
    own stamped output is ordered; under the other algorithms, the walk is
    exact: the times are safe integers and the clock stays one, below 2^53)
    the slices are ordered by start time and do not overlap: a later slice
    starts at or after the end of an earlier one, and none starts before 0.
    Under the other algorithms a slice starts at the end of the slice before
    it or at its entry's arrival time, whichever is later: the timeline is
    contiguous there exactly when the process had arrived by then, and has a
    gap otherwise. *)
Theorem C1_timeline_ordered (lib : Lib) (values : FormValues) (w w1 : World)
    (raw : list loc) :
  processes w ≠ [] →
  run_strategy lib values (processes w) w = Some (raw, w1) →
  live (heap w1) raw →
  nonnegative_amounts (deref_all (heap w1) raw) →
  (algorithm values = "PPS" → ordered_from 0 (deref_all (heap w1) raw)) →
  (algorithm values ≠ "PPS" → exact_from 0 (deref_all (heap w1) raw)) →
  ∃ w', onSubmit lib values w = Some (tt, w')
    ∧ process_id <$> displayed w' = process_id <$> deref_all (heap w1) raw
    ∧ (∀ (i j : nat) (s t : Process),
         i < j → displayed w' !! i = Some s → displayed w' !! j = Some t →
         (arrival_time s ≤ arrival_time t)%Z
         ∧ (arrival_time s + burst_time s ≤ arrival_time t)%Z)
    ∧ (∀ (i : nat) (s : Process), displayed w' !! i = Some s → (0 ≤ arrival_time s)%Z)
    ∧ (algorithm values ≠ "PPS" →
       (∀ (s e : Process),
          displayed w' !! 0 = Some s → deref_all (heap w1) raw !! 0 = Some e →
          arrival_time s = Z.max 0 (arrival_time e))
       ∧ (∀ (i : nat) (s t e : Process),
          displayed w' !! i = Some s → displayed w' !! S i = Some t →
          deref_all (heap w1) raw !! S i = Some e →
          arrival_time t = Z.max (arrival_time s + burst_time s) (arrival_time e))).
Proof.
  intros Hne Hrun Hlive Hnn Hpps Hexact.
  destruct (algorithm values =? "PPS") eqn:Halg.
  - apply String.eqb_eq in Halg. specialize (Hpps Halg).
    rewrite (onSubmit_runs lib values w raw w1 Hne Hrun Hlive).
    rewrite Halg. cbn [String.eqb Ascii.eqb Bool.eqb].
    eexists. split; [reflexivity|]. unfold displayed. cbn [heap timeline].
    split; [done|]. split; [|split].
    + intros i j s t. by apply ordered_from_pairwise with (clock := 0%Z).
    + intros i s. by apply ordered_from_lower_bound.
    + done.
  - destruct (onSubmit_displays_stamped lib values w w1 raw Hne Halg Hrun Hlive)
      as (w' & Hw' & Hshown & _).
    { apply Hexact. by apply String.eqb_neq. }
    exists w'. split; [done|]. rewrite Hshown.
    pose proof (stamp_from_ordered (deref_all (heap w1) raw) 0) as Hord.
    pose proof (stamp_from_amounts _ 0 Hnn) as Hnn'.
    split; [apply stamp_from_ids|]. split; [|split].
    + intros i j s t. by apply ordered_from_pairwise with (clock := 0%Z).
    + intros i s. by apply ordered_from_lower_bound.
    + intros _. split.
      * intros s e. apply stamp_from_first.
      * intros i s t e. apply stamp_from_next.
Qed.

Lemma C1_timeline_ordered_witness :
  ∃ w', onSubmit SpecLib.lib (Sample.choose "fCFS")
          (Sample.page [Sample.proc 1 0 1; Sample.proc 2 5 1]) = Some (tt, w')
    ∧ process_id <$> displayed w' = [1%Z; 2%Z]
    ∧ (∀ (i j : nat) (s t : Process),
         i < j → displayed w' !! i = Some s → displayed w' !! j = Some t →
         (arrival_time s ≤ arrival_time t)%Z
         ∧ (arrival_time s + burst_time s ≤ arrival_time t)%Z).
Proof.
  destruct (C1_timeline_ordered SpecLib.lib (Sample.choose "fCFS")
              (Sample.page [Sample.proc 1 0 1; Sample.proc 2 5 1]) _ _
              ltac:(discriminate) eq_refl)
    as (w' & Hrun & Hids & Hord & _).
  - apply liveb_live. reflexivity.
  - apply nonnegative_amountsb_spec. reflexivity.
  - discriminate.
  - intros _. apply exact_fromb_spec. reflexivity.
  - exists w'. split; [exact Hrun|]. split; [exact Hids|exact Hord].
Defined.

(** C1 as stated fails: the second process arrives at 5, the first ends at
    1; the timeline has the two process slices and nothing in between. *)
Lemma C1_counterexample :
  valid_input [Sample.proc 1 0 1; Sample.proc 2 5 1]
  ∧ ∃ w', onSubmit SpecLib.lib (Sample.choose "fCFS")
            (Sample.page [Sample.proc 1 0 1; Sample.proc 2 5 1]) = Some (tt, w')
          ∧ displayed w' = [Sample.proc 1 0 1; Sample.proc 2 5 1]
          ∧ ¬ contiguous_from 0 (displayed w').
Proof.
  split; [apply (bool_decide_unpack _); vm_compute; exact I|].
  eexists. split; [vm_compute; reflexivity|]. split; [reflexivity|].
  cbn. intros (_ & Hgap & _). discriminate Hgap.
Qed.

(** C2 (as the code has it): a quantum greater than 100 is rejected by the
    form schema before the handler runs.  Under round robin any other
    quantum reaches the strategy: a missing one is read as 0, a zero or
    negative one is passed as it is, and no error is reported.  Under any
    other algorithm the handler does not look at the quantum. *)
Theorem C2_quantum_handling (lib : Lib) (a : string) (q : option Z) (w : World) :
  (∀ q0, q = Some q0 → (100 < q0)%Z →
     handleSubmit lib {| in_algorithm := Some a; in_quantum := q |} w =
       Some (tt, {| heap := heap w; processes := processes w; timeline := timeline w;
                    trace := trace w ++
                      [FormErrors ["Quantum cannot be greater than 100."]] |}))
  ∧ ((∀ q0, q = Some q0 → (q0 ≤ 100)%Z) →
     handleSubmit lib {| in_algorithm := Some a; in_quantum := q |} w =
       onSubmit lib {| algorithm := a; quantum := q |} w)
  ∧ (a = "RR" → processes w ≠ [] →
     ∀ r, roundRobin lib (processes w) (default 0%Z q) (heap w) = Some r →
     live (store r) (returned r) →
     ∃ w', onSubmit lib {| algorithm := a; quantum := q |} w = Some (tt, w')
           ∧ trace w' = trace w ++
               [Invoke "RR" (processes w) (Some (default 0%Z q)); ScrollIntoView]
           ∧ displayed w' = copies_from 0 (deref_all (store r) (returned r))
           ∧ (exact_from 0 (deref_all (store r) (returned r)) →
              displayed w' = stamp_from 0 (deref_all (store r) (returned r))))
  ∧ (a ≠ "RR" → ∀ q', onSubmit lib {| algorithm := a; quantum := q |} w =
                       onSubmit lib {| algorithm := a; quantum := q' |} w).
Proof.
  split; [|split; [|split]].
  - intros q0 -> Hq. apply Z.leb_gt in Hq.
    unfold handleSubmit, FormSchema. cbn. by rewrite Hq.
  - intros Hq. unfold handleSubmit. by rewrite FormSchema_accepts.
  - intros -> Hne r Hr Hlive.
    destruct (onSubmit_displays_copies lib {| algorithm := "RR"; quantum := q |} w
                {| heap := store r; processes := handed r; timeline := timeline w;
                   trace := trace w ++ [Invoke "RR" (processes w) (Some (default 0%Z q))] |}
                (returned r))
      as (w' & Hw' & Hshown & _ & _ & Htrace); [done|done| |done|].
    { unfold run_strategy, call. cbn [algorithm quantum String.eqb Ascii.eqb Bool.eqb].
      by rewrite Hr. }
    exists w'. split; [done|]. split; [|split; [done|]].
    + rewrite Htrace. cbn. by rewrite <- app_assoc.
    + intros Hexact. rewrite Hshown. by apply copies_from_exact.
  - intros Ha q'. unfold onSubmit. cbn [algorithm].
    unfold mbind at 1 5, M_bind at 1 5, getProcesses.
    destruct (length (processes w) =? 0)%nat; [done|].
    by rewrite (run_strategy_ignores_quantum lib a q q').
Qed.

Lemma C2_quantum_handling_witness :
  handleSubmit SpecLib.lib {| in_algorithm := Some "RR"; in_quantum := Some 101%Z |}
    (Sample.page [Sample.proc 1 0 5; Sample.proc 2 0 3]) =
    Some (tt, {| heap := [Sample.proc 1 0 5; Sample.proc 2 0 3]; processes := [0; 1];
                 timeline := [];
                 trace := [FormErrors ["Quantum cannot be greater than 100."]] |})
  ∧ (∃ w', onSubmit SpecLib.lib {| algorithm := "RR"; quantum := Some 2%Z |}
             (Sample.page [Sample.proc 1 0 5; Sample.proc 2 0 3]) = Some (tt, w')
           ∧ trace w' = [Invoke "RR" [0; 1] (Some 2%Z); ScrollIntoView]
           ∧ displayed w' = [Sample.proc 1 0 2; Sample.proc 2 2 2; Sample.proc 1 4 2;
                             Sample.proc 2 6 1; Sample.proc 1 7 1])
  ∧ onSubmit SpecLib.lib {| algorithm := "SJF"; quantum := Some 0%Z |}
      (Sample.page [Sample.proc 1 0 5; Sample.proc 2 0 3]) =
    onSubmit SpecLib.lib {| algorithm := "SJF"; quantum := None |}
      (Sample.page [Sample.proc 1 0 5; Sample.proc 2 0 3]).
Proof.
  split; [|split].
  - apply (proj1 (C2_quantum_handling SpecLib.lib "RR" (Some 101%Z)
                    (Sample.page [Sample.proc 1 0 5; Sample.proc 2 0 3])) 101%Z eq_refl).
    reflexivity.
  - destruct (proj1 (proj2 (proj2 (C2_quantum_handling SpecLib.lib "RR" (Some 2%Z)
                    (Sample.page [Sample.proc 1 0 5; Sample.proc 2 0 3])))) eq_refl
                ltac:(discriminate) _ eq_refl) as (w' & Hrun & Htrace & _ & Hshown).
    + apply liveb_live. reflexivity.
    + exists w'. split; [exact Hrun|]. split; [exact Htrace|].
      apply Hshown, exact_fromb_spec. reflexivity.
  - apply (proj2 (proj2 (proj2 (C2_quantum_handling SpecLib.lib "SJF" (Some 0%Z)
                    (Sample.page [Sample.proc 1 0 5; Sample.proc 2 0 3]))))).
    discriminate.
Defined.

(** C2 as stated fails: under round robin a missing, a zero and a negative
    quantum are all accepted, and the strategy is called with 0, 0 and -3. *)
Lemma C2_counterexample :
  ¬ rejects (handleSubmit SpecLib.lib {| in_algorithm := Some "RR"; in_quantum := None |})
            (Sample.page [Sample.proc 1 0 5; Sample.proc 2 0 3])
  ∧ ¬ rejects (handleSubmit SpecLib.lib
                 {| in_algorithm := Some "RR"; in_quantum := Some 0%Z |})
              (Sample.page [Sample.proc 1 0 5; Sample.proc 2 0 3])
  ∧ ¬ rejects (handleSubmit SpecLib.lib
                 {| in_algorithm := Some "RR"; in_quantum := Some (-3)%Z |})
              (Sample.page [Sample.proc 1 0 5; Sample.proc 2 0 3])
  ∧ (∃ w', handleSubmit SpecLib.lib {| in_algorithm := Some "RR"; in_quantum := None |}
             (Sample.page [Sample.proc 1 0 5; Sample.proc 2 0 3]) = Some (tt, w')
           ∧ trace w' = [Invoke "RR" [0; 1] (Some 0%Z); ScrollIntoView])
  ∧ (∃ w', handleSubmit SpecLib.lib
             {| in_algorithm := Some "RR"; in_quantum := Some (-3)%Z |}
             (Sample.page [Sample.proc 1 0 5; Sample.proc 2 0 3]) = Some (tt, w')
           ∧ trace w' = [Invoke "RR" [0; 1] (Some (-3)%Z); ScrollIntoView]).
Proof.
  repeat split.
  1-3: intros (w' & e & Hrun & Htrace & _);
       vm_compute in Hrun; injection Hrun as <-; discriminate Htrace.
  all: eexists; split; [vm_compute; reflexivity | reflexivity].
Qed.

(** C3: for an algorithm other than preemptive priority the timeline has one
    slice per entry of the decision sequence; with the clock starting at 0,
    the slice of an entry is that entry with its start set to the larger of
    the clock and the entry's arrival time, and the clock then becomes that
    start plus the entry's run amount.  The sum is the integers': the walk
    is exact, that is, the times are safe integers and the clock stays one
    (below 2^53). *)
Theorem C3_assembly_entry_by_entry (lib : Lib) (values : FormValues) (w w1 : World)
    (raw : list loc) :
  processes w ≠ [] →
  algorithm values ≠ "PPS" →
  run_strategy lib values (processes w) w = Some (raw, w1) →
  live (heap w1) raw →
  exact_from 0 (deref_all (heap w1) raw) →
  ∃ (w' : World) (current_clock : nat → Z),
    onSubmit lib values w = Some (tt, w')
    ∧ length (displayed w') = length raw
    ∧ current_clock 0%nat = 0%Z
    ∧ ∀ (i : nat) (entry : Process),
        deref_all (heap w1) raw !! i = Some entry →
        displayed w' !! i =
          Some (with_arrival_time entry (Z.max (current_clock i) (arrival_time entry)))
        ∧ current_clock (S i) =
            (Z.max (current_clock i) (arrival_time entry) + burst_time entry)%Z.
Proof.
  intros Hne Halg Hrun Hlive Hexact.
  apply String.eqb_neq in Halg.
  destruct (onSubmit_displays_stamped lib values w w1 raw Hne Halg Hrun Hlive Hexact)
    as (w' & Hw' & Hshown & _).
  exists w', (λ i, clock_from 0 (take i (deref_all (heap w1) raw))).
  split; [done|]. rewrite Hshown. split; [|split].
  - by rewrite stamp_from_length, deref_all_length.
  - by destruct (deref_all (heap w1) raw).
  - intros i entry Hi. split.
    + by apply stamp_from_lookup.
    + by apply clock_from_take_S.
Qed.

Lemma C3_assembly_entry_by_entry_witness :
  ∃ w', onSubmit SpecLib.lib (Sample.choose "fCFS")
          (Sample.page [Sample.proc 2 7 3; Sample.proc 1 0 5; Sample.proc 3 2 1])
        = Some (tt, w')
        ∧ displayed w' = [Sample.proc 1 0 5; Sample.proc 3 5 1; Sample.proc 2 7 3].
Proof.
  destruct (C3_assembly_entry_by_entry SpecLib.lib (Sample.choose "fCFS")
              (Sample.page [Sample.proc 2 7 3; Sample.proc 1 0 5; Sample.proc 3 2 1])
              _ _ ltac:(discriminate) ltac:(discriminate) eq_refl)
    as (w' & clock & Hrun & _ & _ & _).
  - apply liveb_live. reflexivity.
  - apply exact_fromb_spec. reflexivity.
  - exists w'. split; [exact Hrun|].
    vm_compute in Hrun. injection Hrun as <-. reflexivity.
Defined.

(** C4: under preemptive priority the timeline state receives the very
    array of references the strategy returned, and the store is the one the
    strategy left: no slice is copied or changed. *)
Theorem C4_preemptive_pass_through (lib : Lib) (values : FormValues) (w : World)
    (r : Returned) :
  processes w ≠ [] →
  algorithm values = "PPS" →
  preemptivePriority lib (processes w) (heap w) = Some r →
  live (store r) (returned r) →
  ∃ w', onSubmit lib values w = Some (tt, w')
        ∧ timeline w' = returned r
        ∧ heap w' = store r
        ∧ displayed w' = deref_all (store r) (returned r).
Proof.
  intros Hne Halg Hr Hlive.
  assert (Hrun : run_strategy lib values (processes w) w =
                 call "PPS" (processes w) None (preemptivePriority lib (processes w)) w).
  { unfold run_strategy. by rewrite Halg. }
  unfold call in Hrun. rewrite Hr in Hrun.
  rewrite (onSubmit_runs lib values w _ _ Hne Hrun Hlive).
  rewrite Halg. cbn [String.eqb Ascii.eqb Bool.eqb].
  eexists. split; [reflexivity|]. by cbn.
Qed.

Lemma C4_preemptive_pass_through_witness :
  ∃ w', onSubmit SpecLib.lib (Sample.choose "PPS")
          (Sample.page [Sample.proc_with_priority 1 0 4 2;
                        Sample.proc_with_priority 2 2 2 1]) = Some (tt, w')
        ∧ timeline w' = [2; 3; 4]
        ∧ displayed w' = [Sample.proc_with_priority 1 0 2 2;
                          Sample.proc_with_priority 2 2 2 1;
                          Sample.proc_with_priority 1 4 2 2].
Proof.
  destruct (C4_preemptive_pass_through SpecLib.lib (Sample.choose "PPS")
              (Sample.page [Sample.proc_with_priority 1 0 4 2;
                            Sample.proc_with_priority 2 2 2 1]) _
              ltac:(discriminate) eq_refl eq_refl)
    as (w' & Hrun & Htl & _ & Hshown).
  - apply liveb_live. reflexivity.
  - exists w'. split; [exact Hrun|]. split; [exact Htl|exact Hshown].
Defined.

(** C5 (as the code has it): under either priority strategy the handler
    hands the whole process array to the strategy without looking at the
    [priority] fields, whether they are present or not; the strategy's
    result is assembled and no error is reported. *)
Theorem C5_priority_not_checked (lib : Lib) (values : FormValues) (w : World)
    (r : Returned) :
  processes w ≠ [] →
  algorithm values = "NPPS" ∨ algorithm values = "PPS" →
  let strategy :=
    if algorithm values =? "NPPS" then nonPreemptivePriority lib else preemptivePriority lib in
  strategy (processes w) (heap w) = Some r →
  live (store r) (returned r) →
  ∃ w', onSubmit lib values w = Some (tt, w')
        ∧ trace w' = trace w ++ [Invoke (algorithm values) (processes w) None; ScrollIntoView]
        ∧ length (timeline w') = length (returned r).
Proof.
  intros Hne Halg strategy Hr Hlive.
  assert (Hrun : run_strategy lib values (processes w) w =
                 call (algorithm values) (processes w) None (strategy (processes w)) w).
  { unfold run_strategy, strategy. by destruct Halg as [-> | ->]. }
  unfold call in Hrun. rewrite Hr in Hrun.
  rewrite (onSubmit_runs lib values w _ _ Hne Hrun Hlive).
  eexists. split; [reflexivity|].
  destruct (algorithm values =? "PPS"); cbn; rewrite <- app_assoc; cbn;
    by rewrite ?length_seq.
Qed.

Lemma C5_priority_not_checked_witness :
  ∃ w', onSubmit SpecLib.lib (Sample.choose "NPPS")
          (Sample.page [Sample.proc_with_priority 1 0 4 2; Sample.proc 2 2 2]) = Some (tt, w')
        ∧ trace w' = [Invoke "NPPS" [0; 1] None; ScrollIntoView]
        ∧ length (timeline w') = 2.
Proof.
  apply (C5_priority_not_checked SpecLib.lib (Sample.choose "NPPS")
           (Sample.page [Sample.proc_with_priority 1 0 4 2; Sample.proc 2 2 2])
           {| returned := [2; 3];
              handed := [0; 1];
              store := [Sample.proc_with_priority 1 0 4 2; Sample.proc 2 2 2;
                        Sample.proc_with_priority 1 0 4 2; Sample.proc 2 2 2] |}).
  - discriminate.
  - left. reflexivity.
  - reflexivity.
  - apply liveb_live. reflexivity.
Defined.

(** C5 as stated fails: the second process has no priority, and under both
    priority strategies the run is not rejected but simulated. *)
Lemma C5_counterexample :
  priority (Sample.proc 2 2 2) = None
  ∧ ¬ rejects (onSubmit SpecLib.lib (Sample.choose "NPPS"))
              (Sample.page [Sample.proc_with_priority 1 0 4 2; Sample.proc 2 2 2])
  ∧ ¬ rejects (onSubmit SpecLib.lib (Sample.choose "PPS"))
              (Sample.page [Sample.proc_with_priority 1 0 4 2; Sample.proc 2 2 2])
  ∧ (∃ w', onSubmit SpecLib.lib (Sample.choose "NPPS")
             (Sample.page [Sample.proc_with_priority 1 0 4 2; Sample.proc 2 2 2])
           = Some (tt, w')
           ∧ trace w' = [Invoke "NPPS" [0; 1] None; ScrollIntoView]
           ∧ length (timeline w') = 2).
Proof.
  repeat split.
  1-2: intros (w' & e & Hrun & Htrace & _);
       vm_compute in Hrun; injection Hrun as <-; discriminate Htrace.
  eexists; split; [vm_compute; reflexivity | split; reflexivity].
Qed.

(** C6: with an empty process list the handler raises the "No processes
    added!" notification and stops: the result does not depend on the
    strategy library, no record is allocated, and the timeline state keeps
    the value it had. *)
Theorem C6_empty_input (lib : Lib) (values : FormValues) (w : World) :
  processes w = [] →
  onSubmit lib values w =
    Some (tt, {| heap := heap w; processes := processes w; timeline := timeline w;
                 trace := trace w ++ [ToastError "No processes added!"] |}).
Proof.
  apply onSubmit_empty.
Qed.

Lemma C6_empty_input_witness :
  onSubmit SpecLib.lib (Sample.choose "fCFS") Sample.cleared_page =
    Some (tt, {| heap := [Sample.proc 1 0 5; Sample.proc 1 0 5]; processes := [];
                 timeline := [1];
                 trace := [Invoke "fCFS" [0] None; ScrollIntoView;
                           ToastError "No processes added!"] |}).
Proof. apply (C6_empty_input SpecLib.lib (Sample.choose "fCFS") Sample.cleared_page). reflexivity. Defined.

(** C7: with the strategies as the specification gives them (each works on
    a copy of the records it is handed), a run mutates nothing the caller
    holds, whatever the algorithm and the quantum: the handler completes,
    the [processes] state is the same array afterwards, and every record of
    the store, those of the process list among them, holds exactly what it
    held before (id, arrival time, burst time, colour and priority).  The
    handler's own share holds for any library: whatever the strategy
    returned and did, the two loops and the state updates leave the
    [processes] array and every record as the strategy left them; the second
    loop stamps copies, the first pushes references. *)
Theorem C7_process_list_not_mutated (values : FormValues) (w : World) :
  (∃ w', onSubmit SpecLib.lib values w = Some (tt, w')
         ∧ processes w' = processes w
         ∧ (∀ (r : loc) (p : Process), heap w !! r = Some p → heap w' !! r = Some p)
         ∧ (live (heap w) (processes w) → process_list w' = process_list w))
  ∧ ∀ (lib : Lib) (raw : list loc) (w1 : World),
      processes w ≠ [] →
      run_strategy lib values (processes w) w = Some (raw, w1) →
      live (heap w1) raw →
      ∃ w', onSubmit lib values w = Some (tt, w')
            ∧ processes w' = processes w1
            ∧ ∀ (r : loc) (p : Process), heap w1 !! r = Some p → heap w' !! r = Some p.
Proof.
  split.
  - destruct (processes w) as [|r0 ps] eqn:Hps.
    + rewrite (onSubmit_empty SpecLib.lib values w Hps).
      eexists. split; [reflexivity|]. cbn. unfold process_list. cbn. by rewrite Hps.
    + assert (Hne : processes w ≠ []) by by rewrite Hps.
      rewrite <- Hps in *.
      destruct (SpecLib_onSubmit values) as (f & Hf).
      destruct (Hf w Hne) as (w' & k & Hrun & Hsame & Hheap & _).
      exists w'. split; [done|]. split; [done|]. split.
      * intros r p Hp. rewrite Hheap. by apply lookup_app_l_Some.
      * intros Hlive. unfold process_list. rewrite Hsame, Hheap. by apply deref_all_app.
  - intros lib raw w1 Hne Hrun Hlive.
    rewrite (onSubmit_runs lib values w raw w1 Hne Hrun Hlive).
    eexists. split; [reflexivity|].
    destruct (algorithm values =? "PPS"); cbn; (split; [done|]).
    + done.
    + intros r p Hp. by apply lookup_app_l_Some.
Qed.

Lemma C7_process_list_not_mutated_witness :
  ∃ w', onSubmit SpecLib.lib {| algorithm := "RR"; quantum := Some 2%Z |}
          (Sample.page [Sample.proc 1 0 5; Sample.proc 2 0 3]) = Some (tt, w')
        ∧ processes w' = [0; 1]
        ∧ process_list w' = [Sample.proc 1 0 5; Sample.proc 2 0 3].
Proof.
  destruct (proj1 (C7_process_list_not_mutated
                     {| algorithm := "RR"; quantum := Some 2%Z |}
                     (Sample.page [Sample.proc 1 0 5; Sample.proc 2 0 3])))
    as (w' & Hrun & Hps & _ & Hlist).
  exists w'. split; [exact Hrun|]. split; [exact Hps|].
  apply Hlist, liveb_live. reflexivity.
Defined.

(** C8: with the strategies and the metrics as the specification gives
    them, a run is a function of its input.  Two submissions with the same
    algorithm and quantum, made on pages that hold the same process list,
    complete and end alike, wherever the records lie in the store and
    whatever else differs between the pages (records of earlier runs, an
    earlier timeline, earlier notifications): both produce the same
    timeline, slice for slice, and the same metrics.  In particular a second
    submission on the page the first one left repeats its result.  The
    handler's own share holds for any library: when the decision sequences
    of two runs agree record for record, so do the timelines. *)
Theorem C8_deterministic (values : FormValues) (wa wb : World) :
  same_input wa wb →
  processes wa ≠ [] →
  (∃ (tl : list Process) (metrics : option Metrics.Summary),
     outcome (onSubmit SpecLib.lib values wa) = Some (tl, metrics))
  ∧ outcome (onSubmit SpecLib.lib values wa) = outcome (onSubmit SpecLib.lib values wb)
  ∧ (∀ wa', onSubmit SpecLib.lib values wa = Some (tt, wa') →
            outcome (onSubmit SpecLib.lib values wa')
            = outcome (onSubmit SpecLib.lib values wa))
  ∧ ∀ (lib : Lib) (rawa rawb : list loc) (w1a w1b : World),
      run_strategy lib values (processes wa) wa = Some (rawa, w1a) →
      run_strategy lib values (processes wb) wb = Some (rawb, w1b) →
      live (heap w1a) rawa → live (heap w1b) rawb →
      deref_all (heap w1a) rawa = deref_all (heap w1b) rawb →
      ∃ wa' wb', onSubmit lib values wa = Some (tt, wa')
                 ∧ onSubmit lib values wb = Some (tt, wb')
                 ∧ displayed wa' = displayed wb'.
Proof.
  intros Hin Hne. pose proof (same_input_nonempty wa wb Hin Hne) as Hneb.
  destruct Hin as (Hla & Hlb & Heq).
  destruct (SpecLib_outcome values) as (g & Hg).
  rewrite (Hg wa Hla Hne), (Hg wb Hlb Hneb), Heq.
  split; [|split; [done|split]].
  - destruct (g (process_list wb)) as [tl metrics]. by exists tl, metrics.
  - intros wa' Hrun.
    destruct (SpecLib_onSubmit values) as (f & Hf).
    destruct (Hf wa Hne) as (w' & k & Hrun' & Hps & Hheap & _).
    rewrite Hrun in Hrun'. injection Hrun' as <-.
    rewrite (Hg wa').
    + rewrite <- Heq. do 2 f_equal. unfold process_list. rewrite Hps, Hheap.
      by apply deref_all_app.
    + rewrite Hps, Hheap. by apply live_app.
    + by rewrite Hps.
  - intros lib rawa rawb w1a w1b Hra Hrb Hlivea Hliveb Hraw.
    destruct (algorithm values =? "PPS") eqn:Halg.
    + rewrite (onSubmit_runs lib values wa rawa w1a Hne Hra Hlivea), Halg.
      rewrite (onSubmit_runs lib values wb rawb w1b Hneb Hrb Hliveb), Halg.
      by eexists _, _.
    + destruct (onSubmit_displays_copies lib values wa w1a rawa Hne Halg Hra Hlivea)
        as (wa' & Hwa' & Hshowna & _).
      destruct (onSubmit_displays_copies lib values wb w1b rawb Hneb Halg Hrb Hliveb)
        as (wb' & Hwb' & Hshownb & _).
      exists wa', wb'. by rewrite Hshowna, Hshownb, Hraw.
Qed.

Lemma C8_deterministic_witness :
  outcome (onSubmit SpecLib.lib (Sample.choose "SJF")
             (Sample.page [Sample.proc 1 0 5; Sample.proc 2 1 3; Sample.proc 3 2 1])) =
  outcome (onSubmit SpecLib.lib (Sample.choose "SJF")
             {| heap := [Sample.proc 9 0 1; Sample.proc 3 2 1; Sample.proc 2 1 3;
                         Sample.proc 1 0 5; Sample.proc 9 4 1];
                processes := [3; 2; 1]; timeline := [0; 4];
                trace := [ToastError "No processes added!"] |}).
Proof.
  refine (proj1 (proj2 (C8_deterministic (Sample.choose "SJF")
           (Sample.page [Sample.proc 1 0 5; Sample.proc 2 1 3; Sample.proc 3 2 1])
           {| heap := [Sample.proc 9 0 1; Sample.proc 3 2 1; Sample.proc 2 1 3;
                       Sample.proc 1 0 5; Sample.proc 9 4 1];
              processes := [3; 2; 1]; timeline := [0; 4];
              trace := [ToastError "No processes added!"] |} _ _))).
  - split; [apply liveb_live; reflexivity|].
    split; [apply liveb_live; reflexivity|reflexivity].
  - discriminate.
Defined.

(** C9: with the strategies and the metrics as the specification gives
    them, for every valid input (distinct ids, no negative arrival time,
    positive burst times, a positive quantum under round robin), every one
    of the six strategies and every process of the input, the run produces
    a timeline on which the metrics of the process are defined, its waiting
    time is at least 0 and its turnaround time is at least its burst time.
    Where the handler adds times (every algorithm but preemptive priority)
    the walk is exact: the times of the decision sequence are safe integers
    and the clock stays one (below 2^53). *)
Theorem C9_waiting_and_turnaround (values : FormValues) (w w1 : World)
    (raw : list loc) (p : Process) :
  valid_input (process_list w) →
  recognised (algorithm values) = true →
  (algorithm values = "RR" → ∃ q, quantum values = Some q ∧ (0 < q)%Z) →
  run_strategy SpecLib.lib values (processes w) w = Some (raw, w1) →
  (algorithm values ≠ "PPS" → exact_from 0 (deref_all (heap w1) raw)) →
  p ∈ process_list w →
  ∃ (w' : World) (m : Metrics.ProcessMetrics),
    onSubmit SpecLib.lib values w = Some (tt, w')
    ∧ Metrics.process_metrics p (displayed w') = Some m
    ∧ (0 ≤ Metrics.waiting_time m)%Z
    ∧ (burst_time p ≤ Metrics.turnaround_time m)%Z.
Proof.
  unfold process_list. intros Hv Hrec Hq Hrun Hexact Hp.
  assert (Hne : processes w ≠ []).
  { intros Hnil. rewrite Hnil in Hp. by apply elem_of_nil in Hp. }
  unfold recognised, case_labels in Hrec. cbn [existsb] in Hrec.
  repeat (apply orb_true_elim in Hrec as [Hrec|Hrec]); try done;
    apply String.eqb_eq in Hrec.
  - apply (served_after_copy values w w1 raw SpecLib.fcfs "fCFS" None p Hne Hrun Hexact).
    + unfold run_strategy. by rewrite Hrec.
    + by apply fcfs_serves.
    + by apply fcfs_serves.
    + rewrite Hrec. discriminate.
  - apply (served_after_copy values w w1 raw SpecLib.sjf "SJF" None p Hne Hrun Hexact).
    + unfold run_strategy. by rewrite Hrec.
    + by apply sjf_serves.
    + by apply sjf_serves.
    + rewrite Hrec. discriminate.
  - destruct (Hq Hrec) as (q & Hquantum & Hpos).
    apply (served_after_copy values w w1 raw (λ vs, SpecLib.rr vs q) "RR" (Some q) p
             Hne Hrun Hexact).
    + unfold run_strategy. by rewrite Hrec, Hquantum.
    + by apply rr_serves.
    + by apply rr_serves.
    + rewrite Hrec. discriminate.
  - apply (served_after_copy values w w1 raw SpecLib.srtf "SRTF" None p Hne Hrun Hexact).
    + unfold run_strategy. by rewrite Hrec.
    + by apply (preemptive_serves snd false).
    + by apply (preemptive_serves snd false).
    + rewrite Hrec. discriminate.
  - apply (served_after_copy values w w1 raw SpecLib.npps "NPPS" None p Hne Hrun Hexact).
    + unfold run_strategy. by rewrite Hrec.
    + by apply npps_serves.
    + by apply npps_serves.
    + rewrite Hrec. discriminate.
  - apply (served_after_copy values w w1 raw SpecLib.pps "PPS" None p Hne Hrun Hexact).
    + unfold run_strategy. by rewrite Hrec.
    + by apply (preemptive_serves (λ a, SpecLib.priority_rank a.1) true).
    + by apply (preemptive_serves (λ a, SpecLib.priority_rank a.1) true).
    + intros _. by apply (preemptive_serves (λ a, SpecLib.priority_rank a.1) true).
Qed.

Lemma C9_waiting_and_turnaround_witness :
  ∃ (w' : World) (m : Metrics.ProcessMetrics),
    onSubmit SpecLib.lib {| algorithm := "RR"; quantum := Some 2%Z |}
      (Sample.page [Sample.proc 1 0 5; Sample.proc 2 0 3]) = Some (tt, w')
    ∧ Metrics.process_metrics (Sample.proc 1 0 5) (displayed w') = Some m
    ∧ (0 ≤ Metrics.waiting_time m)%Z
    ∧ (burst_time (Sample.proc 1 0 5) ≤ Metrics.turnaround_time m)%Z.
Proof.
  eapply (C9_waiting_and_turnaround {| algorithm := "RR"; quantum := Some 2%Z |}
            (Sample.page [Sample.proc 1 0 5; Sample.proc 2 0 3]) _ _ (Sample.proc 1 0 5)).
  - apply (bool_decide_unpack _). vm_compute. exact I.
  - reflexivity.
  - intros _. exists 2%Z. split; [reflexivity|lia].
  - vm_compute. reflexivity.
  - intros _. apply exact_fromb_spec. reflexivity.
  - apply list_elem_of_In. left. reflexivity.
Defined.

(** C10: an algorithm value that is none of the six case labels selects no
    strategy.  The decision sequence stays empty, the timeline state is set
    to the empty array, the results block is not rendered, and the handler
    reports no error. *)
Theorem C10_unrecognised_algorithm (lib : Lib) (values : FormValues) (w : World) :
  processes w ≠ [] →
  recognised (algorithm values) = false →
  run_strategy lib values (processes w) w = Some ([], w)
  ∧ ∃ w', onSubmit lib values w = Some (tt, w')
          ∧ heap w' = heap w
          ∧ timeline w' = []
          ∧ results_rendered w' = false
          ∧ trace w' = trace w ++ [ScrollIntoView].
Proof.
  intros Hne Hrec.
  unfold recognised, case_labels in Hrec. cbn [existsb] in Hrec.
  repeat (apply orb_false_elim in Hrec as [? Hrec]).
  assert (Hrun : run_strategy lib values (processes w) w = Some ([], w)).
  { unfold run_strategy.
    repeat match goal with H : (algorithm values =? _) = false |- _ => rewrite H; clear H end.
    reflexivity. }
  split; [exact Hrun|].
  assert (Hpps : (algorithm values =? "PPS") = false) by done.
  rewrite (onSubmit_runs lib values w [] w Hne Hrun), Hpps by constructor.
  eexists. split; [reflexivity|]. cbn. by rewrite app_nil_r.
Qed.

Lemma C10_unrecognised_algorithm_witness :
  ∃ w', onSubmit SpecLib.lib (Sample.choose "FCFS")
          (Sample.page [Sample.proc 1 0 5; Sample.proc 2 1 3]) = Some (tt, w')
        ∧ timeline w' = []
        ∧ results_rendered w' = false
        ∧ trace w' = [ScrollIntoView].
Proof.
  destruct (C10_unrecognised_algorithm SpecLib.lib (Sample.choose "FCFS")
              (Sample.page [Sample.proc 1 0 5; Sample.proc 2 1 3]))
    as (_ & w' & Hrun & _ & Htl & Hshown & Htrace).
  - discriminate.
  - reflexivity.
  - exists w'. repeat split; assumption.
Defined.


(** * Further properties of the page *)

(** ** What a submission reports and leaves alone *)

Section Frames.

Variable lib : Lib.

Implicit Types (w : World) (values : FormValues) (raw ps : list loc).

Lemma copies_from_ids (entries : list Process) : ∀ clock,
  process_id <$> copies_from clock entries = process_id <$> entries.
Proof. induction entries as [|e entries IH]; intros clock; cbn; [done|]. by rewrite IH. Qed.

(** A run whose switch is the call of [f]. *)
Lemma onSubmit_called values w name q (f : Heap → option Returned) :
  processes w ≠ [] →
  run_strategy lib values (processes w) w = call name (processes w) q f w →
  (f (heap w) = None → onSubmit lib values w = None)
  ∧ ∀ r, f (heap w) = Some r → live (store r) (returned r) →
      ∃ w', onSubmit lib values w = Some (tt, w')
            ∧ trace w' = trace w ++ [Invoke name (processes w) q; ScrollIntoView]
            ∧ processes w' = handed r
            ∧ (∃ k, heap w' = store r ++ k)
            ∧ process_id <$> displayed w' = process_id <$> deref_all (store r) (returned r).
Proof.
  intros Hne Hcall. split.
  - intros Hnone. rewrite (onSubmit_unfold lib values w Hne).
    unfold mbind, M_bind. rewrite Hcall. unfold call. by rewrite Hnone.
  - intros r Hr Hlive. unfold call in Hcall. rewrite Hr in Hcall.
    rewrite (onSubmit_runs lib values w _ _ Hne Hcall Hlive).
    eexists. split; [reflexivity|].
    destruct (algorithm values =? "PPS"); cbn [heap processes timeline trace].
    + split; [by rewrite <- app_assoc|]. split; [done|].
      split; [exists []; by rewrite app_nil_r|done].
    + split; [by rewrite <- app_assoc|]. split; [done|].
      split; [by eexists|]. unfold displayed. cbn [heap timeline].
      rewrite <- (copies_from_ids (deref_all (store r) (returned r)) 0). f_equal.
      replace (length (returned r))
        with (length (copies_from 0 (deref_all (store r) (returned r)))).
      * apply deref_all_fresh.
      * by rewrite copies_from_length, deref_all_length.
Qed.

End Frames.

(** X1: with a non-empty process list and one of the six labels selected,
    the handler makes exactly one call: the strategy of that label
    ([firstComeFirstServe] for fCFS, [shortestJobFirst] for SJF,
    [roundRobin] for RR with the quantum or 0, [shortestRemainingTimeFirst]
    for SRTF, [nonPreemptivePriority] for NPPS, [preemptivePriority] for
    PPS), applied to the whole [processes] array.  When that call does not
    return, neither does the handler.  When it returns, the timeline shows
    the processes of its result in the order it gave them, whatever the
    call left in the [processes] array is what the state holds afterwards,
    no record the call left is changed, and no error is reported. *)
Theorem onSubmit_dispatch (lib : Lib) (values : FormValues) (w : World) :
  processes w ≠ [] →
  recognised (algorithm values) = true →
  let a := algorithm values in
  let q := if a =? "RR" then Some (default 0%Z (quantum values)) else None in
  let strategy :=
    if a =? "fCFS" then firstComeFirstServe lib
    else if a =? "SJF" then shortestJobFirst lib
    else if a =? "RR" then λ ps, roundRobin lib ps (default 0%Z (quantum values))
    else if a =? "SRTF" then shortestRemainingTimeFirst lib
    else if a =? "NPPS" then nonPreemptivePriority lib
    else preemptivePriority lib in
  (strategy (processes w) (heap w) = None → onSubmit lib values w = None)
  ∧ ∀ r, strategy (processes w) (heap w) = Some r →
      live (store r) (returned r) →
      ∃ w', onSubmit lib values w = Some (tt, w')
            ∧ trace w' = trace w ++ [Invoke a (processes w) q; ScrollIntoView]
            ∧ processes w' = handed r
            ∧ (∃ k, heap w' = store r ++ k)
            ∧ process_id <$> displayed w' = process_id <$> deref_all (store r) (returned r).
Proof.
  intros Hne Hrec a q strategy.
  apply (onSubmit_called lib values w a q (strategy (processes w)) Hne).
  unfold recognised, case_labels in Hrec. cbn [existsb] in Hrec.
  unfold run_strategy, strategy, q, a.
  destruct (algorithm values =? "fCFS") eqn:E1;
    [|destruct (algorithm values =? "SJF") eqn:E2;
      [|destruct (algorithm values =? "RR") eqn:E3;
        [|destruct (algorithm values =? "SRTF") eqn:E4;
          [|destruct (algorithm values =? "NPPS") eqn:E5;
            [|destruct (algorithm values =? "PPS") eqn:E6; [|done]]]]]].
  all: match goal with H : (algorithm ?v =? _) = true |- _ =>
         apply String.eqb_eq in H; rewrite H end; reflexivity.
Qed.

Lemma onSubmit_dispatch_witness :
  ∃ w', onSubmit SpecLib.lib (Sample.choose "SJF")
          (Sample.page [Sample.proc 1 0 5; Sample.proc 2 1 3; Sample.proc 3 2 1])
        = Some (tt, w')
        ∧ trace w' = [Invoke "SJF" [0; 1; 2] None; ScrollIntoView]
        ∧ processes w' = [0; 1; 2]
        ∧ process_id <$> displayed w' = [1; 3; 2]%Z.
Proof.
  destruct (proj2 (onSubmit_dispatch SpecLib.lib (Sample.choose "SJF")
                     (Sample.page [Sample.proc 1 0 5; Sample.proc 2 1 3; Sample.proc 3 2 1])
                     ltac:(discriminate) eq_refl) _ eq_refl)
    as (w' & Hrun & Htrace & Hps & _ & Hids).
  - apply liveb_live. reflexivity.
  - exists w'. split; [exact Hrun|]. split; [exact Htrace|]. split; [exact Hps|exact Hids].
Defined.

(** ** Busy time, makespan and gaps *)

Section Makespan.

Local Open Scope Z_scope.

Implicit Types (entries tl : list Process) (clock : Z).

Lemma stamp_from_amounts_eq entries : ∀ clock,
  burst_time <$> stamp_from clock entries = burst_time <$> entries.
Proof. induction entries as [|e entries IH]; intros clock; cbn; [done|]. by rewrite IH. Qed.

Lemma total_burst_fmap tl : total_burst tl = foldr Z.add 0 (burst_time <$> tl).
Proof. induction tl as [|s tl IH]; cbn; [done|]. by rewrite <- IH. Qed.

Lemma clock_of_last_stamp_from entries : ∀ clock,
  clock_of_last clock (stamp_from clock entries) = clock_from clock entries.
Proof.
  induction entries as [|e entries IH]; intros clock; [done|].
  cbn [stamp_from clock_from]. destruct entries as [|e' entries].
  - done.
  - rewrite <- IH. cbn [stamp_from].
    apply clock_of_last_cons_cons.
Qed.

Lemma clock_from_lower_bound entries : ∀ clock,
  clock + total_burst entries ≤ clock_from clock entries.
Proof.
  induction entries as [|e entries IH]; intros clock; cbn [clock_from].
  - cbn. lia.
  - specialize (IH (Z.max clock (arrival_time e) + burst_time e)).
    change (total_burst (e :: entries)) with (burst_time e + total_burst entries). lia.
Qed.

Lemma clock_from_tight entries : ∀ clock,
  clock_from clock entries = clock + total_burst entries
  ↔ contiguous_from clock (stamp_from clock entries).
Proof.
  induction entries as [|e entries IH]; intros clock; cbn [clock_from stamp_from contiguous_from].
  - cbn. split; [done|lia].
  - change (total_burst (e :: entries)) with (burst_time e + total_burst entries).
    cbn [with_arrival_time arrival_time burst_time].
    pose proof (clock_from_lower_bound entries (Z.max clock (arrival_time e) + burst_time e)).
    rewrite <- IH. split.
    + intros Heq. split; lia.
    + intros [Hstart Heq]. lia.
Qed.

Lemma stamp_from_contiguous entries : ∀ clock,
  contiguous_from clock (stamp_from clock entries)
  ↔ (∀ e, entries !! 0%nat = Some e → arrival_time e ≤ clock)
    ∧ (∀ (i : nat) s e,
         stamp_from clock entries !! i = Some s → entries !! S i = Some e →
         arrival_time e ≤ arrival_time s + burst_time s).
Proof.
  induction entries as [|e0 entries IH]; intros clock.
  - cbn. split; [|done]. intros _. split; intros; done.
  - cbn [stamp_from contiguous_from with_arrival_time arrival_time burst_time].
    rewrite IH. split.
    + intros (Hstart & Hfirst & Hnext). split.
      * intros e [= <-]. lia.
      * intros [|i] s e Hs He; cbn in Hs, He.
        -- injection Hs as <-. cbn. by apply Hfirst.
        -- by apply (Hnext i).
    + intros (Hfirst & Hnext). split; [|split].
      * specialize (Hfirst e0 eq_refl). lia.
      * intros e He. by apply (Hnext 0%nat _ e eq_refl).
      * intros i s e Hs He. by apply (Hnext (S i)).
Qed.

End Makespan.

(** X2: under every algorithm but preemptive priority, on an exact walk
    (the times are safe integers and the clock stays one, below 2^53), the
    assembly keeps every run amount, so the busy time of the timeline is the
    total run amount of the decision sequence, and the makespan (the end of
    the last slice) is never shorter than the busy time; the two are equal
    exactly when the timeline has no gap. *)
Theorem assembly_busy_time (lib : Lib) (values : FormValues) (w w1 : World)
    (raw : list loc) :
  processes w ≠ [] →
  algorithm values ≠ "PPS" →
  run_strategy lib values (processes w) w = Some (raw, w1) →
  live (heap w1) raw →
  exact_from 0 (deref_all (heap w1) raw) →
  ∃ w', onSubmit lib values w = Some (tt, w')
        ∧ burst_time <$> displayed w' = burst_time <$> deref_all (heap w1) raw
        ∧ (total_burst (displayed w') ≤ clock_of_last 0 (displayed w'))%Z
        ∧ (clock_of_last 0 (displayed w') = total_burst (displayed w')
           ↔ contiguous_from 0 (displayed w')).
Proof.
  intros Hne Halg Hrun Hlive Hexact. apply String.eqb_neq in Halg.
  destruct (onSubmit_displays_stamped lib values w w1 raw Hne Halg Hrun Hlive Hexact)
    as (w' & Hw' & Hshown & _).
  exists w'. split; [done|]. rewrite Hshown.
  pose proof (stamp_from_amounts_eq (deref_all (heap w1) raw) 0) as Hamounts.
  assert (Htotal : total_burst (stamp_from 0 (deref_all (heap w1) raw))
                   = total_burst (deref_all (heap w1) raw)).
  { by rewrite !total_burst_fmap, Hamounts. }
  rewrite clock_of_last_stamp_from, Htotal.
  split; [done|]. split.
  - pose proof (clock_from_lower_bound (deref_all (heap w1) raw) 0). lia.
  - rewrite <- clock_from_tight. split; intros ->; lia.
Qed.

Lemma assembly_busy_time_witness :
  ∃ w', onSubmit SpecLib.lib (Sample.choose "fCFS")
          (Sample.page [Sample.proc 1 0 1; Sample.proc 2 5 1]) = Some (tt, w')
        ∧ burst_time <$> displayed w' = [1; 1]%Z
        ∧ (total_burst (displayed w') ≤ clock_of_last 0 (displayed w'))%Z.
Proof.
  destruct (assembly_busy_time SpecLib.lib (Sample.choose "fCFS")
              (Sample.page [Sample.proc 1 0 1; Sample.proc 2 5 1]) _ _
              ltac:(discriminate) ltac:(discriminate) eq_refl)
    as (w' & Hrun & Hamounts & Hbound & _).
  - apply liveb_live. reflexivity.
  - apply exact_fromb_spec. reflexivity.
  - exists w'. split; [exact Hrun|]. split; [exact Hamounts|exact Hbound].
Defined.

(** X3: under every algorithm but preemptive priority, on an exact walk
    (the times are safe integers and the clock stays one, below 2^53), the
    timeline is gap-free from 0 exactly when no entry is late: the first
    entry has arrived by time 0 and every later entry has arrived by the end
    of the slice before it. *)
Theorem assembly_gap_free (lib : Lib) (values : FormValues) (w w1 : World)
    (raw : list loc) :
  processes w ≠ [] →
  algorithm values ≠ "PPS" →
  run_strategy lib values (processes w) w = Some (raw, w1) →
  live (heap w1) raw →
  exact_from 0 (deref_all (heap w1) raw) →
  ∃ w', onSubmit lib values w = Some (tt, w')
        ∧ (contiguous_from 0 (displayed w')
           ↔ (∀ e, deref_all (heap w1) raw !! 0 = Some e → (arrival_time e ≤ 0)%Z)
             ∧ (∀ (i : nat) (s e : Process),
                  displayed w' !! i = Some s → deref_all (heap w1) raw !! S i = Some e →
                  (arrival_time e ≤ arrival_time s + burst_time s)%Z)).
Proof.
  intros Hne Halg Hrun Hlive Hexact. apply String.eqb_neq in Halg.
  destruct (onSubmit_displays_stamped lib values w w1 raw Hne Halg Hrun Hlive Hexact)
    as (w' & Hw' & Hshown & _).
  exists w'. split; [done|]. rewrite Hshown. apply stamp_from_contiguous.
Qed.

Lemma assembly_gap_free_witness :
  ∃ w', onSubmit SpecLib.lib (Sample.choose "SJF")
          (Sample.page [Sample.proc 1 0 5; Sample.proc 2 1 3; Sample.proc 3 2 1])
        = Some (tt, w')
        ∧ contiguous_from 0 (displayed w').
Proof.
  destruct (assembly_gap_free SpecLib.lib (Sample.choose "SJF")
              (Sample.page [Sample.proc 1 0 5; Sample.proc 2 1 3; Sample.proc 3 2 1]) _ _
              ltac:(discriminate) ltac:(discriminate) eq_refl)
    as (w' & Hrun & Hiff).
  - apply liveb_live. reflexivity.
  - apply exact_fromb_spec. reflexivity.
  - exists w'. split; [exact Hrun|].
    vm_compute in Hrun. injection Hrun as <-. vm_compute. repeat split.
Defined.

(** X4: under every algorithm but preemptive priority every slice of the
    timeline is a new object: the timeline shares no record with the
    caller's process array nor with the array the strategy returned, and no
    record appears in it twice. *)
Theorem assembly_fresh_slices (lib : Lib) (values : FormValues) (w w1 : World)
    (raw : list loc) :
  processes w ≠ [] →
  algorithm values ≠ "PPS" →
  run_strategy lib values (processes w) w = Some (raw, w1) →
  live (heap w1) raw →
  live (heap w1) (processes w) →
  ∃ w', onSubmit lib values w = Some (tt, w')
        ∧ NoDup (timeline w')
        ∧ (∀ l, l ∈ timeline w' → (l ∉ processes w) ∧ (l ∉ raw)).
Proof.
  intros Hne Halg Hrun Hlive Hps. apply String.eqb_neq in Halg.
  rewrite (onSubmit_runs lib values w raw w1 Hne Hrun Hlive), Halg.
  eexists. split; [reflexivity|]. cbn [timeline]. split; [apply NoDup_seq|].
  intros l Hl. apply list_elem_of_In, in_seq in Hl as [Hl _].
  unfold live in Hlive, Hps. rewrite Forall_forall in Hlive, Hps.
  split; intros Hin.
  - specialize (Hps l Hin). cbn in Hps. lia.
  - specialize (Hlive l Hin). cbn in Hlive. lia.
Qed.

Lemma assembly_fresh_slices_witness :
  ∃ w', onSubmit SpecLib.lib (Sample.choose "fCFS")
          (Sample.page [Sample.proc 1 0 1; Sample.proc 2 5 1]) = Some (tt, w')
        ∧ NoDup (timeline w')
        ∧ (∀ l, l ∈ timeline w' → (l ∉ [0; 1]%nat) ∧ (l ∉ [2; 3]%nat)).
Proof.
  apply (assembly_fresh_slices SpecLib.lib (Sample.choose "fCFS")
           (Sample.page [Sample.proc 1 0 1; Sample.proc 2 5 1]) _ _
           ltac:(discriminate) ltac:(discriminate) eq_refl).
  - apply liveb_live. reflexivity.
  - apply liveb_live. reflexivity.
Defined.

(** ** The form schema *)

(** X5: the schema reads the algorithm and the quantum as coerced to a
    number.  It accepts exactly when an algorithm is present and the coerced
    quantum is missing or at most 100: there is no lower bound, so zero and
    negative quanta pass.  It reports every failed check once and nothing
    else: the algorithm message exactly when no algorithm is present, the
    quantum message exactly when the coerced quantum exceeds 100, both when
    both fail. *)
Theorem FormSchema_accepts_iff (i : FormInput) :
  ((∃ values, FormSchema i = inr values)
   ↔ (∃ a, in_algorithm i = Some a) ∧ (∀ q, in_quantum i = Some q → (q ≤ 100)%Z))
  ∧ ∀ issues, FormSchema i = inl issues →
      ("Please select an algorithm to display." ∈ issues ↔ in_algorithm i = None)
      ∧ ("Quantum cannot be greater than 100." ∈ issues
         ↔ ∃ q, in_quantum i = Some q ∧ (100 < q)%Z)
      ∧ NoDup issues
      ∧ ∀ msg, msg ∈ issues →
          msg = "Please select an algorithm to display."
          ∨ msg = "Quantum cannot be greater than 100.".
Proof.
  destruct i as [[a|] [q0|]]; unfold FormSchema; cbn;
    try destruct (Z.leb_spec q0 100); cbn.
  all: split.
  all: try (split; [intros [values Hv]|intros [[a' Ha] Hq]]).
  all: try discriminate.
  all: try (by eexists).
  all: try (split; [by eexists|intros q Hq; first [by injection Hq as <- | done]]).
  all: try (specialize (Hq q0 eq_refl); lia).
  all: intros issues Hi; try discriminate Hi; injection Hi as <-.
  all: repeat split.
  all: try done.
  all: try (by apply (bool_decide_unpack _)).
  all: try (intros Hin; apply list_elem_of_In in Hin; cbn in Hin;
            first [ by intuition discriminate
                  | by (exists q0)
                  | by intuition ]).
  all: try (intros [q [Hq Hlt]]; first [injection Hq as <-; lia | discriminate Hq]).
  all: try (intros _; apply list_elem_of_In; cbn; tauto).
  all: intros msg Hin; apply list_elem_of_In in Hin; cbn in Hin;
       intuition (subst; auto).
Qed.

(** ** Editing the process list *)

Section ProcessList.

Implicit Types (w : World) (pg : Page) (data : ProcessFormValues) (xs : list loc).

(** No row has the edited index: the array is mapped to itself and nothing
    is allocated. *)
Lemma map_indexed_miss idx data xs : ∀ i w,
  (∀ j, j < length xs → i + j ≠ idx) →
  map_indexed (replace_at idx data) xs i w = Some (xs, w).
Proof.
  induction xs as [|x xs IH]; intros i w Hmiss; [done|].
  cbn [map_indexed]. unfold mbind at 1, M_bind at 1. unfold replace_at at 1.
  destruct (Nat.eqb_spec i idx) as [->|_].
  { exfalso. apply (Hmiss 0); cbn; lia. }
  unfold mret at 1, M_ret at 1. unfold mbind, M_bind.
  rewrite IH; [done|]. intros j Hj. specialize (Hmiss (S j)). cbn in Hmiss. lia.
Qed.

(** Row [k] has the edited index: it is replaced by a new record, the
    merge of the old one with the form values; the other rows keep their
    references. *)
Lemma map_indexed_hit idx data xs : ∀ i k w r old,
  xs !! k = Some r → heap w !! r = Some old → idx = i + k →
  map_indexed (replace_at idx data) xs i w =
    Some (<[k := length (heap w)]> xs,
          {| heap := heap w ++ [merge old data]; processes := processes w;
             timeline := timeline w; trace := trace w |}).
Proof.
  induction xs as [|x xs IH]; intros i k w r old Hk Hr ->; [done|].
  cbn [map_indexed]. unfold mbind at 1, M_bind at 1. unfold replace_at at 1.
  destruct k as [|k]; cbn in Hk.
  - injection Hk as ->. rewrite Nat.add_0_r, Nat.eqb_refl.
    unfold mbind, M_bind, read, new, alloc. rewrite Hr.
    rewrite map_indexed_miss; [done|]. intros j _. lia.
  - destruct (Nat.eqb_spec i (i + S k)) as [Heq|_]; [lia|].
    unfold mret at 1, M_ret at 1. unfold mbind, M_bind.
    rewrite (IH (S i) k w r old Hk Hr) by lia. done.
Qed.

Lemma replace_at_grows idx data x i w y w' :
  replace_at idx data x i w = Some (y, w') →
  untouched w w' ∧ ∃ k, heap w' = heap w ++ k.
Proof.
  unfold replace_at. destruct (i =? idx)%nat.
  - unfold mbind, M_bind, read, new, alloc. destruct (heap w !! x) as [old|]; [|done].
    intros [= <- <-]. split; [by repeat split|]. by eexists.
  - intros [= <- <-]. split; [by repeat split|]. exists []. by rewrite app_nil_r.
Qed.

Lemma map_indexed_grows idx data xs : ∀ i w ys w',
  map_indexed (replace_at idx data) xs i w = Some (ys, w') →
  untouched w w' ∧ ∃ k, heap w' = heap w ++ k.
Proof.
  induction xs as [|x xs IH]; intros i w ys w' Hrun.
  - cbn in Hrun. injection Hrun as <- <-. split; [by repeat split|].
    exists []. by rewrite app_nil_r.
  - cbn [map_indexed] in Hrun. unfold mbind, M_bind in Hrun.
    destruct (replace_at idx data x i w) as [[y w1]|] eqn:Hstep; [|done].
    destruct (map_indexed (replace_at idx data) xs (S i) w1) as [[ys1 w2]|] eqn:Hrest; [|done].
    injection Hrun as <- <-.
    destruct (replace_at_grows _ _ _ _ _ _ _ Hstep) as ((Ht & Hp & Htl) & k1 & Hk1).
    destruct (IH _ _ _ _ Hrest) as ((Ht' & Hp' & Htl') & k2 & Hk2).
    split.
    + unfold untouched. by rewrite Ht', Hp', Htl'.
    + exists (k1 ++ k2). by rewrite Hk2, Hk1, app_assoc.
Qed.

(** The two branches of [addProcess]. *)
Lemma addProcess_edit pg data idx :
  editIndex pg = Some idx →
  addProcess data pg =
    match map_indexed (replace_at idx data) (processes (world pg)) 0 (world pg) with
    | Some (next, w1) =>
        Some {| world := {| heap := heap w1; processes := next;
                            timeline := timeline w1; trace := trace w1 |};
                editIndex := None; popoverOpen := false;
                selectedAlgorithm := selectedAlgorithm pg |}
    | None => None
    end.
Proof.
  intros Hidx. unfold addProcess. rewrite Hidx.
  unfold getProcesses, setProcesses. unfold mbind, M_bind, option_bind.
  by destruct (map_indexed _ _ _ _) as [[next w1]|].
Qed.

Lemma addProcess_add pg data :
  editIndex pg = None →
  addProcess data pg =
    Some {| world :=
              {| heap := heap (world pg) ++
                           [create data (Z.of_nat (length (processes (world pg))) + 1)];
                 processes := processes (world pg) ++ [length (heap (world pg))];
                 timeline := timeline (world pg); trace := trace (world pg) |};
            editIndex := None; popoverOpen := false;
            selectedAlgorithm := selectedAlgorithm pg |}.
Proof. intros Hidx. unfold addProcess. by rewrite Hidx. Qed.

(** Adding, editing or clearing never removes or changes a record, sets
    the timeline or reports anything. *)
Lemma perform_grows (a : Action) pg pg' :
  perform a pg = Some pg' →
  timeline (world pg') = timeline (world pg)
  ∧ trace (world pg') = trace (world pg)
  ∧ ∃ k, heap (world pg') = heap (world pg) ++ k.
Proof.
  destruct a as [data|idx|open| |v]; cbn [perform].
  2-5: intros [= <-]; cbn; (split; [done|]); (split; [done|]);
       exists []; by rewrite app_nil_r.
  destruct (editIndex pg) as [idx|] eqn:Hidx.
  - rewrite (addProcess_edit pg data idx Hidx).
    destruct (map_indexed _ _ _ _) as [[next w1]|] eqn:Hmap; [|done].
    intros [= <-]. cbn.
    destruct (map_indexed_grows _ _ _ _ _ _ _ Hmap) as ((Ht & _ & Htl) & k & Hk).
    split; [done|]. split; [done|]. by exists k.
  - rewrite (addProcess_add pg data Hidx). intros [= <-]. cbn.
    split; [done|]. split; [done|]. by eexists.
Qed.

Lemma deref_all_insert_fresh (h : list Process) (m : Process) xs : ∀ k,
  live h xs → k < length xs →
  deref_all (h ++ [m]) (<[k := length h]> xs) = <[k := m]> (deref_all h xs).
Proof.
  induction xs as [|x xs IH]; intros k Hlive Hk; [cbn in Hk; lia|].
  apply Forall_cons in Hlive as [Hx Hlive].
  destruct (lookup_lt_is_Some_2 h x Hx) as [p Hp].
  rewrite (deref_all_cons h x xs p Hp). destruct k as [|k]; cbn [insert list_insert].
  - rewrite (deref_all_cons (h ++ [m]) (length h) xs m).
    + by rewrite deref_all_app.
    + rewrite lookup_app_r by lia. by rewrite Nat.sub_diag.
  - rewrite (deref_all_cons (h ++ [m]) x _ p).
    + rewrite IH; [done|done|cbn in Hk; lia].
    + by rewrite lookup_app_l.
Qed.

Lemma live_insert_fresh (h : list Process) (m : Process) xs k :
  live h xs → live (h ++ [m]) (<[k := length h]> xs).
Proof.
  intros Hlive. unfold live. apply Forall_insert.
  - by apply live_app.
  - rewrite length_app. cbn. lia.
Qed.

(** Saving with no row in edit appends one row. *)
Lemma append_row (data : ProcessFormValues) (pg : Page) :
  editIndex pg = None →
  live (heap (world pg)) (processes (world pg)) →
  ∃ pg', addProcess data pg = Some pg'
         ∧ listed pg' =
             listed pg ++ [create data (Z.of_nat (length (processes (world pg))) + 1)]
         ∧ live (heap (world pg')) (processes (world pg'))
         ∧ editIndex pg' = None ∧ popoverOpen pg' = false.
Proof.
  intros Hidx Hlive. rewrite (addProcess_add pg data Hidx).
  eexists. split; [reflexivity|]. unfold listed. cbn.
  split; [|split; [|done]].
  - unfold deref_all. rewrite omap_app. f_equal.
    + by apply deref_all_app.
    + cbn. rewrite lookup_app_r by lia. by rewrite Nat.sub_diag.
  - apply Forall_app. split; [by apply live_app|].
    constructor; [|constructor]. rewrite length_app. cbn. lia.
Qed.

(** Saving with a row in edit replaces that row. *)
Lemma edit_row (data : ProcessFormValues) (pg : Page) (idx : nat)
    (r : loc) (old : Process) :
  editIndex pg = Some idx →
  live (heap (world pg)) (processes (world pg)) →
  processes (world pg) !! idx = Some r →
  heap (world pg) !! r = Some old →
  ∃ pg', addProcess data pg = Some pg'
         ∧ listed pg' = <[idx := merge old data]> (listed pg)
         ∧ length (processes (world pg')) = length (processes (world pg))
         ∧ (∀ j, j ≠ idx → processes (world pg') !! j = processes (world pg) !! j)
         ∧ heap (world pg') !! r = Some old
         ∧ live (heap (world pg')) (processes (world pg'))
         ∧ editIndex pg' = None ∧ popoverOpen pg' = false.
Proof.
  intros Hidx Hlive Hr Hold. rewrite (addProcess_edit pg data idx Hidx).
  rewrite (map_indexed_hit idx data _ 0 idx (world pg) r old Hr Hold eq_refl).
  eexists. split; [reflexivity|]. unfold listed. cbn.
  split; [|split; [|split; [|split; [|split; [|done]]]]].
  - apply deref_all_insert_fresh; [done|]. by apply lookup_lt_Some in Hr.
  - apply length_insert.
  - intros j Hj. by apply list_lookup_insert_ne.
  - by apply lookup_app_l_Some.
  - by apply live_insert_fresh.
Qed.

(** Saving with an edit index outside the list changes no row. *)
Lemma stale_row (data : ProcessFormValues) (pg : Page) (idx : nat) :
  editIndex pg = Some idx →
  (length (processes (world pg)) ≤ idx)%nat →
  addProcess data pg =
    Some {| world := world pg; editIndex := None; popoverOpen := false;
            selectedAlgorithm := selectedAlgorithm pg |}.
Proof.
  intros Hidx Hlen. rewrite (addProcess_edit pg data idx Hidx).
  rewrite map_indexed_miss by (intros j Hj; lia).
  by destruct (world pg).
Qed.

Lemma perform_all_app (actions1 actions2 : list Action) pg :
  perform_all (actions1 ++ actions2) pg =
    pg1 ← perform_all actions1 pg; perform_all actions2 pg1.
Proof.
  revert pg. induction actions1 as [|a actions1 IH]; intros pg; [done|].
  cbn [app perform_all]. destruct (perform a pg) as [pg1|]; cbn; [apply IH|done].
Qed.

(** Opening and closing the popover touches nothing but its flag. *)
Lemma perform_toggles (toggles : list bool) : ∀ pg,
  ∃ pg', perform_all (OpenChange <$> toggles) pg = Some pg'
         ∧ world pg' = world pg ∧ editIndex pg' = editIndex pg.
Proof.
  induction toggles as [|b toggles IH]; intros pg; [by exists pg|].
  cbn. destruct (IH (onOpenChange b pg)) as (pg' & Hrun & Hw & Hidx).
  exists pg'. by rewrite Hrun, Hw, Hidx.
Qed.

Lemma ids_in_order_NoDup pg : ids_in_order pg → NoDup (process_id <$> listed pg).
Proof.
  intros [_ Hids]. rewrite Hids. apply NoDup_fmap_2; [|apply NoDup_seq].
  intros i j. apply Nat2Z.inj.
Qed.

(** Each action keeps the ids in list order, provided the form values
    carry no id. *)
Lemma perform_ids (a : Action) pg :
  carries_no_id a = true → ids_in_order pg →
  ∃ pg', perform a pg = Some pg' ∧ ids_in_order pg'.
Proof.
  intros Hno [Hlive Hids]. destruct a as [data|idx|open| |v]; cbn [perform].
  - destruct (editIndex pg) as [idx|] eqn:Hidx.
    + destruct (processes (world pg) !! idx) as [r|] eqn:Hr.
      * assert (Hr' : r < length (heap (world pg))).
        { unfold live in Hlive. rewrite Forall_forall in Hlive.
          apply Hlive. by apply list_elem_of_lookup_2 in Hr. }
        destruct (lookup_lt_is_Some_2 _ _ Hr') as [old Hold].
        destruct (edit_row data pg idx r old Hidx Hlive Hr Hold)
          as (pg' & Hrun & Hlisted & Hlen & _ & _ & Hlive' & _).
        exists pg'. split; [done|]. split; [done|].
        rewrite Hlisted, Hlen, list_fmap_insert, <- Hids.
        apply list_insert_id. rewrite list_lookup_fmap.
        assert (Hold' : listed pg !! idx = Some old).
        { unfold listed, deref_all.
          clear -Hlive Hr Hold. revert idx Hr.
          induction (processes (world pg)) as [|x xs IH]; intros idx Hr; [done|].
          apply Forall_cons in Hlive as [Hx Hlive].
          destruct (lookup_lt_is_Some_2 _ _ Hx) as [p Hp]. cbn. rewrite Hp. cbn.
          destruct idx as [|idx]; cbn in Hr |- *.
          - injection Hr as ->. congruence.
          - by apply IH. }
        rewrite Hold'. cbn. f_equal. unfold merge. cbn.
        cbn in Hno. by destruct (form_process_id data).
      * apply lookup_ge_None in Hr.
        rewrite (stale_row data pg idx Hidx Hr). eexists. split; [reflexivity|].
        by split.
    + destruct (append_row data pg Hidx Hlive) as (pg' & Hrun & Hlisted & Hlive' & _).
      exists pg'. split; [done|]. split; [done|].
      assert (Hlen : length (processes (world pg')) = S (length (processes (world pg)))).
      { rewrite (addProcess_add pg data Hidx) in Hrun. injection Hrun as <-.
        cbn. rewrite length_app. cbn. lia. }
      rewrite Hlisted, Hlen, fmap_app, Hids, seq_S, fmap_app. cbn. do 3 f_equal. lia.
  - eexists. split; [reflexivity|]. by split.
  - eexists. split; [reflexivity|]. by split.
  - eexists. split; [reflexivity|]. split; [constructor|done].
  - eexists. split; [reflexivity|]. by split.
Qed.

End ProcessList.

(** X7: with no row in edit, saving the process form appends one row.  Its
    id is the list length plus one, whatever id the form values carry; the
    rows that were there are unchanged, edit mode stays off and the popover
    is closed. *)
Theorem addProcess_appends (data : ProcessFormValues) (pg : Page) :
  editIndex pg = None →
  live (heap (world pg)) (processes (world pg)) →
  ∃ pg', addProcess data pg = Some pg'
         ∧ listed pg' =
             listed pg ++ [create data (Z.of_nat (length (processes (world pg))) + 1)]
         ∧ live (heap (world pg')) (processes (world pg'))
         ∧ editIndex pg' = None ∧ popoverOpen pg' = false.
Proof. apply append_row. Qed.

Lemma addProcess_appends_witness :
  ∃ pg', addProcess {| form_process_id := Present 7%Z; form_arrival_time := 2;
                       form_burst_time := 4; form_background := "#10b981";
                       form_priority := Absent |}
           {| world := Sample.page [Sample.proc 1 0 5]; editIndex := None;
              popoverOpen := true; selectedAlgorithm := "SJF" |} = Some pg'
         ∧ listed pg' = [Sample.proc 1 0 5;
                         {| process_id := 2; arrival_time := 2; burst_time := 4;
                            background := "#10b981"; priority := None |}]
         ∧ popoverOpen pg' = false.
Proof.
  destruct (addProcess_appends
              {| form_process_id := Present 7%Z; form_arrival_time := 2;
                 form_burst_time := 4; form_background := "#10b981";
                 form_priority := Absent |}
              {| world := Sample.page [Sample.proc 1 0 5]; editIndex := None;
                 popoverOpen := true; selectedAlgorithm := "SJF" |})
    as (pg' & Hrun & Hlisted & _ & _ & Hclosed).
  - reflexivity.
  - apply liveb_live. reflexivity.
  - exists pg'. split; [exact Hrun|]. split; [exact Hlisted|exact Hclosed].
Defined.

(** X8: with row [idx] in edit, saving the process form replaces that row
    and no other: the row becomes the old record overwritten with the form
    values (it keeps its id and its priority when the form values carry
    none), every other row is the very same record object, the list keeps
    its length, and the old record itself is not written to. *)
Theorem addProcess_edits_row (data : ProcessFormValues) (pg : Page) (idx : nat)
    (r : loc) (old : Process) :
  editIndex pg = Some idx →
  live (heap (world pg)) (processes (world pg)) →
  processes (world pg) !! idx = Some r →
  heap (world pg) !! r = Some old →
  ∃ pg', addProcess data pg = Some pg'
         ∧ listed pg' = <[idx := merge old data]> (listed pg)
         ∧ length (processes (world pg')) = length (processes (world pg))
         ∧ (∀ j, j ≠ idx → processes (world pg') !! j = processes (world pg) !! j)
         ∧ heap (world pg') !! r = Some old
         ∧ live (heap (world pg')) (processes (world pg'))
         ∧ editIndex pg' = None ∧ popoverOpen pg' = false.
Proof. apply edit_row. Qed.

Lemma addProcess_edits_row_witness :
  ∃ pg', addProcess {| form_process_id := Absent; form_arrival_time := 3;
                       form_burst_time := 9; form_background := "#10b981";
                       form_priority := Absent |}
           {| world := Sample.page [Sample.proc 1 0 5;
                                    Sample.proc_with_priority 2 1 3 4];
              editIndex := Some 1; popoverOpen := true; selectedAlgorithm := "NPPS" |}
         = Some pg'
         ∧ listed pg' = [Sample.proc 1 0 5;
                         {| process_id := 2; arrival_time := 3; burst_time := 9;
                            background := "#10b981"; priority := Some 4%Z |}]
         ∧ editIndex pg' = None.
Proof.
  destruct (addProcess_edits_row
              {| form_process_id := Absent; form_arrival_time := 3;
                 form_burst_time := 9; form_background := "#10b981";
                 form_priority := Absent |}
              {| world := Sample.page [Sample.proc 1 0 5;
                                       Sample.proc_with_priority 2 1 3 4];
                 editIndex := Some 1; popoverOpen := true; selectedAlgorithm := "NPPS" |}
              1 1 (Sample.proc_with_priority 2 1 3 4))
    as (pg' & Hrun & Hlisted & _ & _ & _ & _ & Hedit & _).
  - reflexivity.
  - apply liveb_live. reflexivity.
  - reflexivity.
  - reflexivity.
  - exists pg'. split; [exact Hrun|]. split; [exact Hlisted|exact Hedit].
Defined.

(** X9: with an edit index that is not a row of the list (the list was
    cleared or is shorter), saving the process form changes nothing but the
    two flags: no row is added or replaced, no record is allocated, and the
    submitted values are dropped. *)
Theorem addProcess_stale_index (data : ProcessFormValues) (pg : Page) (idx : nat) :
  editIndex pg = Some idx →
  (length (processes (world pg)) ≤ idx)%nat →
  addProcess data pg =
    Some {| world := world pg; editIndex := None; popoverOpen := false;
            selectedAlgorithm := selectedAlgorithm pg |}.
Proof. apply stale_row. Qed.

Lemma addProcess_stale_index_witness :
  addProcess {| form_process_id := Absent; form_arrival_time := 3;
                form_burst_time := 9; form_background := "#10b981";
                form_priority := Absent |}
    (clearAll (onEditClick 1
       {| world := Sample.page [Sample.proc 1 0 5; Sample.proc 2 1 3]; editIndex := None;
          popoverOpen := false; selectedAlgorithm := "SJF" |})) =
  Some {| world := {| heap := [Sample.proc 1 0 5; Sample.proc 2 1 3]; processes := [];
                      timeline := []; trace := [] |};
          editIndex := None; popoverOpen := false; selectedAlgorithm := "SJF" |}.
Proof.
  apply (addProcess_stale_index
           {| form_process_id := Absent; form_arrival_time := 3;
              form_burst_time := 9; form_background := "#10b981";
              form_priority := Absent |}
           (clearAll (onEditClick 1
              {| world := Sample.page [Sample.proc 1 0 5; Sample.proc 2 1 3];
                 editIndex := None; popoverOpen := false; selectedAlgorithm := "SJF" |})) 1).
  - reflexivity.
  - cbn. lia.
Defined.

(** X10: the edit index is reset by saving only.  After the pencil of row
    [idx] is clicked, closing and reopening the popover any number of times
    leaves the page in edit mode: the next save overwrites row [idx] and
    adds no row. *)
Theorem edit_survives_closing (toggles : list bool) (data : ProcessFormValues)
    (pg : Page) (idx : nat) (r : loc) (old : Process) :
  live (heap (world pg)) (processes (world pg)) →
  processes (world pg) !! idx = Some r →
  heap (world pg) !! r = Some old →
  ∃ pg', perform_all (EditClick idx :: (OpenChange <$> toggles) ++ [SaveProcess data]) pg
           = Some pg'
         ∧ listed pg' = <[idx := merge old data]> (listed pg)
         ∧ length (processes (world pg')) = length (processes (world pg)).
Proof.
  intros Hlive Hr Hold. cbn [perform_all perform]. cbn [mbind option_bind].
  rewrite perform_all_app.
  destruct (perform_toggles toggles (onEditClick idx pg)) as (pg1 & -> & Hw & Hidx).
  cbn [mbind option_bind perform_all perform].
  cbn [onEditClick world editIndex] in Hw, Hidx.
  destruct (edit_row data pg1 idx r old) as (pg' & Hrun & Hlisted & Hlen & _);
    [done|by rewrite Hw..|].
  exists pg'. rewrite Hrun. split; [done|]. unfold listed in *. by rewrite <- Hw.
Qed.

Lemma edit_survives_closing_witness :
  ∃ pg', perform_all [EditClick 0; OpenChange false; OpenChange true;
                      SaveProcess {| form_process_id := Absent; form_arrival_time := 3;
                                     form_burst_time := 9; form_background := "#10b981";
                                     form_priority := Absent |}]
           {| world := Sample.page [Sample.proc 1 0 5; Sample.proc 2 1 3];
              editIndex := None; popoverOpen := false; selectedAlgorithm := "SJF" |}
         = Some pg'
         ∧ listed pg' = [{| process_id := 1; arrival_time := 3; burst_time := 9;
                            background := "#10b981"; priority := None |};
                         Sample.proc 2 1 3]
         ∧ length (processes (world pg')) = 2.
Proof.
  apply (edit_survives_closing [false; true]
           {| form_process_id := Absent; form_arrival_time := 3;
              form_burst_time := 9; form_background := "#10b981";
              form_priority := Absent |}
           {| world := Sample.page [Sample.proc 1 0 5; Sample.proc 2 1 3];
              editIndex := None; popoverOpen := false; selectedAlgorithm := "SJF" |}
           0 0 (Sample.proc 1 0 5)).
  - apply liveb_live. reflexivity.
  - reflexivity.
  - reflexivity.
Defined.

(** X11: the ids of the process list stay 1, 2, ..., n in list order, and
    hence distinct, through any sequence of saving, pencil clicks, popover
    changes, clearing and algorithm changes, as long as the form values
    carry no id of their own; every such sequence runs to completion. *)
Theorem process_ids_in_order (actions : list Action) (pg : Page) :
  forallb carries_no_id actions = true →
  ids_in_order pg →
  ∃ pg', perform_all actions pg = Some pg'
         ∧ ids_in_order pg'
         ∧ NoDup (process_id <$> listed pg').
Proof.
  revert pg. induction actions as [|a actions IH]; intros pg Hno Hids.
  - exists pg. split; [done|]. split; [done|]. by apply ids_in_order_NoDup.
  - cbn in Hno. apply andb_true_iff in Hno as [Ha Hno].
    destruct (perform_ids a pg Ha Hids) as (pg1 & Hstep & Hids1).
    destruct (IH pg1 Hno Hids1) as (pg' & Hrun & Hrest).
    exists pg'. cbn [perform_all]. rewrite Hstep. by cbn.
Qed.

Lemma process_ids_in_order_witness :
  ∃ pg', perform_all
           [SaveProcess {| form_process_id := Absent; form_arrival_time := 0;
                           form_burst_time := 5; form_background := "#3b82f6";
                           form_priority := Absent |};
            SaveProcess {| form_process_id := Absent; form_arrival_time := 1;
                           form_burst_time := 3; form_background := "#3b82f6";
                           form_priority := Present (Some 2%Z) |};
            EditClick 0;
            SaveProcess {| form_process_id := Absent; form_arrival_time := 4;
                           form_burst_time := 2; form_background := "#10b981";
                           form_priority := Absent |}]
           initial_page = Some pg'
         ∧ ids_in_order pg'
         ∧ NoDup (process_id <$> listed pg').
Proof.
  apply (process_ids_in_order
           [SaveProcess {| form_process_id := Absent; form_arrival_time := 0;
                           form_burst_time := 5; form_background := "#3b82f6";
                           form_priority := Absent |};
            SaveProcess {| form_process_id := Absent; form_arrival_time := 1;
                           form_burst_time := 3; form_background := "#3b82f6";
                           form_priority := Present (Some 2%Z) |};
            EditClick 0;
            SaveProcess {| form_process_id := Absent; form_arrival_time := 4;
                           form_burst_time := 2; form_background := "#10b981";
                           form_priority := Absent |}]
           initial_page).
  - reflexivity.
  - split; [apply liveb_live|]; reflexivity.
Defined.

(** X12: editing the process list changes neither the timeline state nor
    a slice it refers to, and reports nothing: through any sequence of
    saving, pencil clicks, popover changes, clearing and algorithm changes
    the results block stays rendered or hidden as it was, and the Gantt
    chart and the [scheduledProcesses] of the summary keep their input.  The
    rest of the block follows the edits: [originalProcesses] is the edited
    list, [algorithm] the current selection and [totalProcesses] the new
    length, so an edited page shows the old timeline beside the new list. *)
Theorem timeline_survives_editing (actions : list Action) (pg pg' : Page) :
  perform_all actions pg = Some pg' →
  live (heap (world pg)) (timeline (world pg)) →
  timeline (world pg') = timeline (world pg)
  ∧ displayed (world pg') = displayed (world pg)
  ∧ trace (world pg') = trace (world pg)
  ∧ results pg' =
      (λ shown, {| gantt_processes := gantt_processes shown;
                   originalProcesses := listed pg';
                   scheduledProcesses := scheduledProcesses shown;
                   summary_algorithm := selectedAlgorithm pg';
                   totalProcesses := length (processes (world pg')) |}) <$> results pg.
Proof.
  intros Hrun Hlive.
  assert (Hframe : timeline (world pg') = timeline (world pg)
                   ∧ displayed (world pg') = displayed (world pg)
                   ∧ trace (world pg') = trace (world pg)).
  { revert pg Hrun Hlive. induction actions as [|a actions IH]; intros pg Hrun Hlive.
    - injection Hrun as <-. done.
    - cbn [perform_all] in Hrun. destruct (perform a pg) as [pg1|] eqn:Hstep; [|done].
      cbn in Hrun. destruct (perform_grows a pg pg1 Hstep) as (Htl & Htrace & k & Hk).
      destruct (IH pg1 Hrun) as (Htl' & Hshown & Htrace').
      { rewrite Hk, Htl. by apply live_app. }
      split; [by rewrite Htl'|]. split; [|by rewrite Htrace'].
      rewrite Hshown. unfold displayed. rewrite Hk, Htl. by apply deref_all_app. }
  destruct Hframe as (Htl & Hshown & Htrace). split; [done|]. split; [done|]. split; [done|].
  unfold results, results_rendered. rewrite Htl, Hshown.
  by destruct (0 <? length (timeline (world pg)))%nat.
Qed.

Lemma timeline_survives_editing_witness :
  results (clearAll
    {| world := {| heap := [Sample.proc 1 0 5; Sample.proc 1 0 5]; processes := [0];
                   timeline := [1]; trace := [] |};
       editIndex := None; popoverOpen := false; selectedAlgorithm := "fCFS" |})
  = Some {| gantt_processes := [Sample.proc 1 0 5]; originalProcesses := [];
            scheduledProcesses := [Sample.proc 1 0 5]; summary_algorithm := "fCFS";
            totalProcesses := 0 |}.
Proof.
  destruct (timeline_survives_editing [ClearAll]
              {| world := {| heap := [Sample.proc 1 0 5; Sample.proc 1 0 5];
                             processes := [0]; timeline := [1]; trace := [] |};
                 editIndex := None; popoverOpen := false; selectedAlgorithm := "fCFS" |}
              _ eq_refl) as (_ & _ & _ & Hresults).
  - apply liveb_live. reflexivity.
  - exact Hresults.
Defined.

(** X13: "Clear All" empties the process list and nothing else.  A
    submission that follows it raises the "No processes added!"
    notification, and the results of the earlier run stay rendered as they
    were. *)
Theorem clear_then_submit (lib : Lib) (i : FormInput) (values : FormValues) (pg : Page) :
  FormSchema i = inr values →
  ∃ pg', submit lib i (clearAll pg) = Some pg'
         ∧ listed pg' = []
         ∧ trace (world pg') = trace (world pg) ++ [ToastError "No processes added!"]
         ∧ heap (world pg') = heap (world pg)
         ∧ timeline (world pg') = timeline (world pg)
         ∧ results_rendered (world pg') = results_rendered (world pg).
Proof.
  intros Hschema. unfold submit, handleSubmit. rewrite Hschema.
  rewrite (onSubmit_empty lib values (world (clearAll pg))) by done.
  eexists. split; [reflexivity|]. by cbn.
Qed.

Lemma clear_then_submit_witness :
  ∃ pg', submit SpecLib.lib {| in_algorithm := Some "fCFS"; in_quantum := None |}
           (clearAll {| world := {| heap := [Sample.proc 1 0 5; Sample.proc 1 0 5];
                                    processes := [0]; timeline := [1]; trace := [] |};
                        editIndex := None; popoverOpen := false;
                        selectedAlgorithm := "fCFS" |}) = Some pg'
         ∧ listed pg' = []
         ∧ trace (world pg') = [ToastError "No processes added!"]
         ∧ results_rendered (world pg') = true.
Proof.
  destruct (clear_then_submit SpecLib.lib {| in_algorithm := Some "fCFS"; in_quantum := None |}
              {| algorithm := "fCFS"; quantum := None |}
              {| world := {| heap := [Sample.proc 1 0 5; Sample.proc 1 0 5];
                             processes := [0]; timeline := [1]; trace := [] |};
                 editIndex := None; popoverOpen := false; selectedAlgorithm := "fCFS" |}
              eq_refl) as (pg' & Hrun & Hlisted & Htrace & _ & _ & Hrendered).
  exists pg'. split; [exact Hrun|]. split; [exact Hlisted|].
  split; [exact Htrace|exact Hrendered].
Defined.

(** ** The disk chart *)

Section Chart.

Import DiskChart.

Lemma imap_point (sequence : list Z) : ∀ k,
  track <$> imap (λ idx t, {| step := k + idx; track := t |}) sequence = sequence
  ∧ step <$> imap (λ idx t, {| step := k + idx; track := t |}) sequence
    = seq k (length sequence).
Proof.
  induction sequence as [|t sequence IH]; intros k; [done|].
  cbn [imap fmap list_fmap length seq]. destruct (IH (S k)) as [Htracks Hsteps].
  assert (Hext : imap ((λ idx t0, {| step := k + idx; track := t0 |}) ∘ S) sequence
                 = imap (λ idx t0, {| step := S k + idx; track := t0 |}) sequence).
  { apply imap_ext. intros i x _. cbn. f_equal. lia. }
  rewrite Hext. cbn [step track]. rewrite Nat.add_0_r.
  split; f_equal; done.
Qed.

End Chart.

(** X14: the chart data has one point per element of the track sequence,
    in order: point [i] has step [i] and the track of element [i], so the
    tracks of the points read back the sequence and the steps count from 0. *)
Theorem DiskChart_data_points (sequence : list Z) :
  length (DiskChart.data sequence) = length sequence
  ∧ DiskChart.track <$> DiskChart.data sequence = sequence
  ∧ DiskChart.step <$> DiskChart.data sequence = seq 0 (length sequence)
  ∧ ∀ i, DiskChart.data sequence !! i
         = (λ t, {| DiskChart.step := i; DiskChart.track := t |}) <$> sequence !! i.
Proof.
  unfold DiskChart.data. split; [apply length_imap|].
  destruct (imap_point sequence 0) as [Htracks Hsteps]. cbn in Htracks, Hsteps.
  split; [exact Htracks|]. split; [exact Hsteps|].
  intros i. apply list_lookup_imap.
Qed.
